(** * fleetimporter: policy-artifact builder and style-guide validator

    A shallow embedding of [tests/test_auto_update.py] (the functions
    [slugify], [format_policy_name] and [build_version_query], replicated
    there from the FleetImporter processor) and of
    [tests/test_style_guide_compliance.py] (the class
    [StyleGuideValidator]), with the properties the specification states
    about them. *)

From Stdlib Require Import String Ascii.
From Stdlib Require Import List NArith ZArith Bool Arith Lia.
From Stdlib Require Import Permutation Sorted.
Import ListNotations.

Local Open Scope N_scope.

(** ** Python strings

    A Python [str] is a sequence of Unicode code points.  Literals of the
    source are written with [str "..."]. *)
Module PyStr.

Definition char := N.
Definition pystr := list char.

Definition str (s : string) : pystr :=
  map N_of_ascii (list_ascii_of_string s).

(** [s.startswith(pre)] *)
Fixpoint startswith (pre s : pystr) : bool :=
  match pre, s with
  | [], _ => true
  | _ :: _, [] => false
  | p :: pre', c :: s' => (p =? c) && startswith pre' s'
  end.

(** [s.endswith(suf)] *)
Definition endswith (suf s : pystr) : bool :=
  startswith (rev suf) (rev s).

(** [sub in s] for two strings: [sub] occurs in [s] at some index. *)
Fixpoint contains (sub s : pystr) : bool :=
  startswith sub s
  || match s with
     | [] => false
     | _ :: s' => contains sub s'
     end.

(** The number of occurrences of one character, [s.count(c)]. *)
Fixpoint count (c : char) (s : pystr) : nat :=
  match s with
  | [] => O
  | d :: s' => if d =? c then S (count c s') else count c s'
  end.

(** [s.replace(old, new)] scans [s] from the left; at an occurrence of
    [old] it emits [new] and resumes after the occurrence, otherwise it
    copies one character.  [skip] counts the characters of a replaced
    occurrence that are still to be passed over. *)
Fixpoint replace_from (old new : pystr) (skip : nat) (s : pystr) : pystr :=
  match s with
  | [] => []
  | c :: r =>
      match skip with
      | S k => replace_from old new k r
      | O =>
          if startswith old s
          then new ++ replace_from old new (length old - 1) r
          else c :: replace_from old new 0 r
      end
  end.

(** With an empty [old], Python inserts [new] before every character and
    at the end. *)
Definition replace (old new s : pystr) : pystr :=
  match old with
  | [] => new ++ flat_map (fun c => c :: new) s
  | _ :: _ => replace_from old new 0 s
  end.

(** [sep.join(pieces)] *)
Fixpoint join (sep : pystr) (pieces : list pystr) : pystr :=
  match pieces with
  | [] => []
  | [p] => p
  | p :: ps => p ++ sep ++ join sep ps
  end.

End PyStr.

(** ** The policy-artifact builder ([tests/test_auto_update.py]) *)
Module PolicyArtifact.
Import PyStr.

Definition quote : char := 39.
Definition hyphen : char := 45.
Definition underscore : char := 95.
Definition newline : char := 10.

(** *** [build_version_query] *)

(** [x.replace("'", "''")] *)
Definition escape (x : pystr) : pystr := replace (str "'") (str "''") x.

Definition build_version_query (software_title version : pystr) : pystr :=
  let escaped_title := escape software_title in
  let escaped_version := escape version in
  str "SELECT * FROM programs WHERE name = '" ++ escaped_title
    ++ str "' AND version != '" ++ escaped_version ++ str "'".

(** Reversing the quote doubling: [x.replace("''", "'")]. *)
Definition unescape (x : pystr) : pystr := replace (str "''") (str "'") x.

(** How SQL reads the body of a single-quoted literal, from just after the
    opening quote: two quotes in a row stand for one quote character, a
    quote alone closes the literal.  The result is the value of the
    literal and the input left after the closing quote; [None] when the
    literal is never closed. *)
Fixpoint read_literal (s : pystr) : option (pystr * pystr) :=
  match s with
  | [] => None
  | c :: r =>
      if c =? quote then
        match r with
        | [] => Some ([], [])
        | c2 :: r2 =>
            if c2 =? quote
            then option_map (fun vr => (quote :: fst vr, snd vr)) (read_literal r2)
            else Some ([], r)
        end
      else option_map (fun vr => (c :: fst vr, snd vr)) (read_literal r)
  end.

(** The lengths of the maximal runs of consecutive quote characters of a
    string, from left to right; [cur] is the length of the run being
    read. *)
Fixpoint quote_runs_from (cur : nat) (s : pystr) : list nat :=
  match s with
  | [] => match cur with O => [] | S _ => [cur] end
  | c :: r =>
      if c =? quote then quote_runs_from (S cur) r
      else match cur with O => [] | S _ => [cur] end ++ quote_runs_from 0 r
  end.

Definition quote_runs (s : pystr) : list nat := quote_runs_from 0 s.

(** *** [slugify]

    [str.lower], [\w] and [\s] are decided by the Unicode character
    database of the interpreter, which is not part of the repository: its
    tables are a parameter of the model. *)
Record unicode_db := {
  (** the full lower-case mapping of one code point (one to three code
      points) *)
  tolower_full : char -> pystr;
  (** the properties Cased and Case_Ignorable, used for a capital sigma *)
  is_cased : char -> bool;
  is_case_ignorable : char -> bool;
  (** [str.isalnum] of one code point; [\w] is this or an underscore *)
  isalnum : char -> bool;
  (** [str.isspace] of one code point; this is [\s] *)
  isspace : char -> bool
}.

Definition capital_sigma : char := 931.
Definition final_sigma : char := 962.
Definition small_sigma : char := 963.

Fixpoint first_not_ignorable (U : unicode_db) (s : pystr) : option char :=
  match s with
  | [] => None
  | c :: r => if is_case_ignorable U c then first_not_ignorable U r else Some c
  end.

(** A capital sigma becomes a final sigma when a cased letter comes before
    it and none comes after it, case-ignorable characters skipped on both
    sides.  [before] is the text before the sigma, nearest character
    first. *)
Definition handle_capital_sigma (U : unicode_db) (before after : pystr) : char :=
  let cased_before :=
    match first_not_ignorable U before with
    | Some c => is_cased U c
    | None => false
    end in
  let cased_after :=
    match first_not_ignorable U after with
    | Some c => is_cased U c
    | None => false
    end in
  if cased_before && negb cased_after then final_sigma else small_sigma.

Fixpoint do_lower (U : unicode_db) (before s : pystr) : pystr :=
  match s with
  | [] => []
  | c :: r =>
      (if c =? capital_sigma
       then [handle_capital_sigma U before r]
       else tolower_full U c)
      ++ do_lower U (c :: before) r
  end.

(** [text.lower()]: every code point by its full lower-case mapping, a
    capital sigma by where it stands. *)
Definition lower (U : unicode_db) (text : pystr) : pystr := do_lower U [] text.

(** [\w] *)
Definition is_word (U : unicode_db) (c : char) : bool :=
  isalnum U c || (c =? underscore).

(** [re.sub(r"[^\w\s-]", "", text)] *)
Definition sub_nonword (U : unicode_db) (text : pystr) : pystr :=
  filter (fun c => is_word U c || isspace U c || (c =? hyphen)) text.

(** [[\s_-]] *)
Definition is_sep (U : unicode_db) (c : char) : bool :=
  isspace U c || (c =? underscore) || (c =? hyphen).

(** [re.sub(r"[\s_-]+", "-", text)]: every maximal run of separators
    becomes one hyphen.  [in_run] says that the previous character was a
    separator, whose run has already been replaced. *)
Fixpoint sub_runs_from (U : unicode_db) (in_run : bool) (text : pystr) : pystr :=
  match text with
  | [] => []
  | c :: r =>
      if is_sep U c
      then (if in_run then [] else [hyphen]) ++ sub_runs_from U true r
      else c :: sub_runs_from U false r
  end.

Definition sub_runs (U : unicode_db) (text : pystr) : pystr :=
  sub_runs_from U false text.

Fixpoint drop_hyphens (text : pystr) : pystr :=
  match text with
  | [] => []
  | c :: r => if c =? hyphen then drop_hyphens r else text
  end.

(** Where [$] matches: at the end of the string, and before a newline
    that ends the string. *)
Definition at_dollar (text : pystr) : bool :=
  match text with
  | [] => true
  | [c] => c =? newline
  | _ => false
  end.

(** The alternative [-+$]: a run of hyphens is removed when [$] matches
    after it. *)
Fixpoint sub_trailing (text : pystr) : pystr :=
  match text with
  | [] => []
  | c :: r =>
      if (c =? hyphen) && at_dollar (drop_hyphens r)
      then drop_hyphens r
      else c :: sub_trailing r
  end.

(** [re.sub(r"^-+|-+$", "", text)]: [^-+] removes the hyphens the string
    starts with, then the scan goes on with [-+$]. *)
Definition sub_edges (text : pystr) : pystr :=
  sub_trailing (drop_hyphens text).

Definition slugify (U : unicode_db) (text : pystr) : pystr :=
  let text := lower U text in
  let text := sub_nonword U text in
  let text := sub_runs U text in
  let text := sub_edges text in
  text.

(** *** [format_policy_name] *)

Definition format_policy_name (U : unicode_db) (template software_title : pystr) : pystr :=
  let slug := slugify U software_title in
  replace (str "%NAME%") slug template.

(** The facts of the character database that the properties of [slugify]
    rest on: a hyphen and the two small sigmas are their own lower case,
    the lower-case mapping of a character other than the capital sigma
    (which [do_lower] treats apart) yields no character that lower-casing
    changes again, and a newline is white space. *)
Record db_laws (U : unicode_db) : Prop := {
  lower_hyphen : tolower_full U hyphen = [hyphen];
  lower_small_sigma : tolower_full U small_sigma = [small_sigma];
  lower_final_sigma : tolower_full U final_sigma = [final_sigma];
  lower_stable : forall c d, c <> capital_sigma -> In d (tolower_full U c) ->
                 tolower_full U d = [d] /\ d <> capital_sigma;
  newline_space : isspace U newline = true
}.

(** A character that lower-casing leaves as it is, wherever it stands. *)
Definition lowered (U : unicode_db) (c : char) : Prop :=
  tolower_full U c = [c] /\ c <> capital_sigma.

(** The last character of the string is a hyphen. *)
Fixpoint ends_hyphen (s : pystr) : bool :=
  match s with
  | [] => false
  | c :: r => match r with [] => c =? hyphen | _ :: _ => ends_hyphen r end
  end.

(** The characters of a slug: lower-case, and a hyphen or an alphanumeric
    character that is not a separator. *)
Definition slug_char (U : unicode_db) (c : char) : Prop :=
  lowered U c /\ (c = hyphen \/ (isalnum U c = true /\ is_sep U c = false)).

(** The character database restricted to the ASCII block; every other
    code point is taken as a caseless symbol. *)
Definition ascii_upper (c : char) : bool := (65 <=? c) && (c <=? 90).
Definition ascii_lower (c : char) : bool := (97 <=? c) && (c <=? 122).
Definition ascii_digit (c : char) : bool := (48 <=? c) && (c <=? 57).

Definition ascii_db : unicode_db := {|
  tolower_full := fun c => if ascii_upper c then [c + 32] else [c];
  is_cased := fun c => ascii_upper c || ascii_lower c;
  is_case_ignorable := fun c =>
    (c =? 39) || (c =? 46) || (c =? 58) || (c =? 94) || (c =? 96);
  isalnum := fun c => ascii_upper c || ascii_lower c || ascii_digit c;
  isspace := fun c => ((9 <=? c) && (c <=? 13)) || ((28 <=? c) && (c <=? 32))
|}.

(** A string cut at the occurrences of [tok] that a scan from the left
    finds: [tok] does not occur in the last piece, and before each earlier
    piece's own [tok] no occurrence starts. *)
Inductive pieces_of (tok : pystr) : pystr -> list pystr -> Prop :=
| pieces_last (s : pystr) :
    contains tok s = false -> pieces_of tok s [s]
| pieces_cons (p rest : pystr) (ps : list pystr) :
    contains tok (p ++ removelast tok) = false ->
    pieces_of tok rest ps ->
    pieces_of tok (p ++ tok ++ rest) (p :: ps).

(** The shape of a slug: its characters, no two hyphens in a row, no
    hyphen at either end. *)
Definition slug_shaped (U : unicode_db) (s : pystr) : Prop :=
  Forall (slug_char U) s
  /\ contains [hyphen; hyphen] s = false
  /\ startswith [hyphen] s = false
  /\ ends_hyphen s = false.

End PolicyArtifact.

(** ** The style-guide validator ([tests/test_style_guide_compliance.py]) *)
Module Compliance.
Import PyStr.
Local Open Scope nat_scope.

(** *** Python values and exceptions

    What [yaml.safe_load] gives for a recipe: null, booleans, integers,
    strings, sequences and mappings (a mapping keeps its pairs in the order
    of the document).  The other scalars of YAML (floats, timestamps,
    binary data) are left out. *)
#[local] Set Warnings "-register-all".
Inductive pyval :=
| PNone
| PBool (b : bool)
| PInt (z : Z)
| PStr (s : pystr)
| PList (l : list pyval)
| PDict (d : list (pyval * pyval)).

Inductive exn := TypeError | AttributeError | KeyError | IndexError.

Inductive result (A : Type) :=
| Ok (a : A)
| Raised (e : exn).
Arguments Ok {A} a.
Arguments Raised {A} e.

Definition rbind {A B} (r : result A) (k : A -> result B) : result B :=
  match r with
  | Ok a => k a
  | Raised e => Raised e
  end.

Fixpoint streq (a b : pystr) : bool :=
  match a, b with
  | [], [] => true
  | x :: a', y :: b' => N.eqb x y && streq a' b'
  | _, _ => false
  end.

(** [v == s] for a string [s] *)
Definition is_str (s : pystr) (v : pyval) : bool :=
  match v with
  | PStr t => streq t s
  | _ => false
  end.

(** [bool(v)] *)
Definition truthy (v : pyval) : bool :=
  match v with
  | PNone => false
  | PBool b => b
  | PInt z => negb (Z.eqb z 0)
  | PStr s => match s with [] => false | _ => true end
  | PList l => match l with [] => false | _ => true end
  | PDict d => match d with [] => false | _ => true end
  end.

(** The value of a mapping at a string key. *)
Fixpoint dict_get (d : list (pyval * pyval)) (key : pystr) : option pyval :=
  match d with
  | [] => None
  | (k, v) :: d' => if is_str key k then Some v else dict_get d' key
  end.

(** [data.get(key, default)]: only a mapping has the method. *)
Definition get (data : pyval) (key : pystr) (default : pyval) : result pyval :=
  match data with
  | PDict d => Ok (match dict_get d key with Some v => v | None => default end)
  | _ => Raised AttributeError
  end.

(** [x in container] for a string [x]: a key of a mapping, an element of a
    sequence, a substring of a string. *)
Definition py_in (x : pystr) (container : pyval) : result bool :=
  match container with
  | PDict d => Ok (existsb (is_str x) (map fst d))
  | PList l => Ok (existsb (is_str x) l)
  | PStr s => Ok (contains x s)
  | _ => Raised TypeError
  end.

(** [len(v)] *)
Definition py_len (v : pyval) : result nat :=
  match v with
  | PStr s => Ok (length s)
  | PList l => Ok (length l)
  | PDict d => Ok (length d)
  | _ => Raised TypeError
  end.

(** What [for item in v] goes through: the elements of a sequence, the
    keys of a mapping, the characters of a string. *)
Definition py_iter (v : pyval) : result (list pyval) :=
  match v with
  | PStr s => Ok (map (fun c => PStr [c]) s)
  | PList l => Ok l
  | PDict d => Ok (map fst d)
  | _ => Raised TypeError
  end.

(** [k == 0] for a key of a mapping *)
Definition is_zero (k : pyval) : bool :=
  match k with
  | PInt z => Z.eqb z 0
  | PBool b => negb b
  | _ => false
  end.

(** [v[0]] *)
Definition py_first (v : pyval) : result pyval :=
  match v with
  | PList (x :: _) => Ok x
  | PStr (c :: _) => Ok (PStr [c])
  | PList [] | PStr [] => Raised IndexError
  | PDict d =>
      match find (fun kv => is_zero (fst kv)) d with
      | Some kv => Ok (snd kv)
      | None => Raised KeyError
      end
  | _ => Raised TypeError
  end.

(** [hash(v)] fails on sequences and mappings. *)
Definition hashable (v : pyval) : bool :=
  match v with
  | PList _ | PDict _ => false
  | _ => true
  end.

(** [[x for x in l if f(x)]], where [f] may raise *)
Fixpoint filter_r {A} (f : A -> result bool) (l : list A) : result (list A) :=
  match l with
  | [] => Ok []
  | x :: l' =>
      rbind (f x) (fun b =>
      rbind (filter_r f l') (fun rest =>
      Ok (if b then x :: rest else rest)))
  end.

(** *** Paths *)

Definition slash : char := 47%N.
Definition space : char := 32%N.

(** [s.split(sep)] for a separator of one character *)
Fixpoint split_char (sep : char) (s : pystr) : list pystr :=
  match s with
  | [] => [[]]
  | c :: r =>
      if N.eqb c sep then [] :: split_char sep r
      else match split_char sep r with
           | p :: ps => (c :: p) :: ps
           | [] => [[c]]
           end
  end.

(** [os.path.basename(path)], with [/] as the separator of the system *)
Definition basename (path : pystr) : pystr := last (split_char slash path) [].

(** *** The report *)

(** The entries of the two lists of the validator.  An entry is the
    f-string of the source with its path and its values; the constructor
    stands for the fixed text. *)
Inductive message :=
| BadFilename (path : pystr)
| VendorAtRoot (path : pystr)
| VendorSpaces (path vendor_folder : pystr)
| YamlSyntaxError (path e : pystr)
| YamlParseFailed (path e : pystr)
| MissingRequiredFields (path : pystr) (missing : list pystr)
| MissingIdentifier (path : pystr)
| IdentifierPrefix (path identifier : pystr)
| IdentifierNotDirect (path identifier : pystr)
| IdentifierNotGitops (path identifier : pystr)
| MissingProcess (path : pystr)
| ProcessCount (path : pystr) (n : nat)
| NoFleetImporter (path : pystr)
| MissingInput (path : pystr)
| MissingInInput (path var : pystr)
| WrongInInput (path var : pystr) (got : pyval)
| InvalidCategories (path : pystr) (invalid : list pyval)
| BadProcessArgument (path arg : pystr) (got : pyval).

Record validator := mk_validator {
  errors : list message;
  warnings : list message;
  recipe_count : nat;
  direct_count : nat;
  gitops_count : nat
}.

(** [StyleGuideValidator.__init__] *)
Definition init : validator := mk_validator [] [] 0 0 0.

(** A method of the validator: it changes the object and returns or
    raises; what it did to the object before raising stays done. *)
Definition M (A : Type) := validator -> validator * result A.

Definition ret {A} (a : A) : M A := fun v => (v, Ok a).

Definition bind {A B} (m : M A) (k : A -> M B) : M B :=
  fun v =>
    match m v with
    | (v', Ok a) => k a v'
    | (v', Raised e) => (v', Raised e)
    end.

Definition lift {A} (r : result A) : M A := fun v => (v, r).

Notation "x <- m ;; k" := (bind m (fun x => k))
  (at level 61, m at next level, right associativity).
Notation "m ;; k" := (bind m (fun _ => k))
  (at level 61, right associativity).

Definition add_error (m : message) : M unit :=
  fun v => (mk_validator (errors v ++ [m]) (warnings v) (recipe_count v)
              (direct_count v) (gitops_count v), Ok tt).

Definition add_warning (m : message) : M unit :=
  fun v => (mk_validator (errors v) (warnings v ++ [m]) (recipe_count v)
              (direct_count v) (gitops_count v), Ok tt).

Definition incr_recipe_count : M unit :=
  fun v => (mk_validator (errors v) (warnings v) (S (recipe_count v))
              (direct_count v) (gitops_count v), Ok tt).

Definition incr_direct_count : M unit :=
  fun v => (mk_validator (errors v) (warnings v) (recipe_count v)
              (S (direct_count v)) (gitops_count v), Ok tt).

Definition incr_gitops_count : M unit :=
  fun v => (mk_validator (errors v) (warnings v) (recipe_count v)
              (direct_count v) (S (gitops_count v)), Ok tt).

(** *** The checks

    The calls of [print] write progress lines and do not touch the
    object; they are left out, except in [report_results], whose output is
    the report. *)

Definition SUPPORTED_CATEGORIES : list pystr :=
  [str "Browsers"; str "Communication"; str "Developer tools"; str "Productivity"].

Definition validate_filename (recipe_path : pystr) : M unit :=
  let filename := basename recipe_path in
  if negb (endswith (str ".fleet.direct.recipe.yaml") filename
           || endswith (str ".fleet.gitops.recipe.yaml") filename)
  then add_error (BadFilename recipe_path)
  else ret tt.

Definition validate_vendor_folder (recipe_path : pystr) : M unit :=
  let path_parts := split_char slash recipe_path in
  if length path_parts <? 2
  then add_error (VendorAtRoot recipe_path)
  else
    let vendor_folder := nth (length path_parts - 2) path_parts [] in
    if contains [space] vendor_folder
    then add_error (VendorSpaces recipe_path vendor_folder)
    else ret tt.

Definition validate_required_fields (recipe_path : pystr) (data : pyval) : M unit :=
  let required_fields :=
    [str "Description"; str "Identifier"; str "Input"; str "Process"] in
  missing <- lift (filter_r
                     (fun field => rbind (py_in field data)
                                     (fun b => Ok (negb b)))
                     required_fields) ;;
  match missing with
  | _ :: _ => add_error (MissingRequiredFields recipe_path missing)
  | [] => ret tt
  end.

Definition validate_identifier (recipe_path : pystr) (data : pyval)
    (is_gitops is_direct : bool) : M unit :=
  identifier <- lift (get data (str "Identifier") (PStr [])) ;;
  if negb (truthy identifier)
  then add_error (MissingIdentifier recipe_path)
  else
    match identifier with
    | PStr ident =>
        let expected_prefix := str "com.github.fleet." in
        if negb (startswith expected_prefix ident)
        then add_error (IdentifierPrefix recipe_path ident)
        else
          let has_direct_id := contains (str ".direct.") ident in
          let has_gitops_id := contains (str ".gitops.") ident in
          if is_direct && negb has_direct_id
          then add_error (IdentifierNotDirect recipe_path ident)
          else if is_gitops && negb has_gitops_id
          then add_error (IdentifierNotGitops recipe_path ident)
          else ret tt
    | _ => lift (Raised AttributeError)
    end.

(** The loop over the stages, up to its [break]: only a stage that is a
    mapping is looked at. *)
Fixpoint has_fleet_importer (items : list pyval) : result bool :=
  match items with
  | [] => Ok false
  | item :: rest =>
      match item with
      | PDict _ =>
          rbind (get item (str "Processor") (PStr [])) (fun processor =>
          rbind (py_in (str "FleetImporter") processor) (fun found =>
          if found then Ok true else has_fleet_importer rest))
      | _ => has_fleet_importer rest
      end
  end.

Definition validate_single_processor (recipe_path : pystr) (data : pyval) : M unit :=
  process_list <- lift (get data (str "Process") (PList [])) ;;
  if negb (truthy process_list)
  then add_error (MissingProcess recipe_path)
  else
    n <- lift (py_len process_list) ;;
    (if negb (n =? 1) then add_warning (ProcessCount recipe_path n) else ret tt) ;;
    items <- lift (py_iter process_list) ;;
    found <- lift (has_fleet_importer items) ;;
    if negb found then add_error (NoFleetImporter recipe_path) else ret tt.

Definition validate_name (recipe_path : pystr) (input_section : pyval) : M unit :=
  name <- lift (get input_section (str "NAME") PNone) ;;
  match name with
  | PNone => add_error (MissingInInput recipe_path (str "NAME"))
  | _ => ret tt
  end.

Definition validate_categories (recipe_path : pystr) (input_section : pyval) : M unit :=
  categories <- lift (get input_section (str "CATEGORIES") (PList [])) ;;
  if negb (truthy categories)
  then ret tt
  else
    items <- lift (py_iter categories) ;;
    invalid_categories <-
      lift (filter_r
              (fun category =>
                 if hashable category
                 then Ok (negb (existsb (fun s => is_str s category)
                                        SUPPORTED_CATEGORIES))
                 else Raised TypeError)
              items) ;;
    match invalid_categories with
    | _ :: _ => add_error (InvalidCategories recipe_path invalid_categories)
    | [] => ret tt
    end.

(** A variable of [Input] that must be a given boolean. *)
Definition validate_flag (recipe_path var : pystr) (wanted : bool)
    (input_section : pyval) : M unit :=
  value <- lift (get input_section var PNone) ;;
  match value with
  | PNone => add_error (MissingInInput recipe_path var)
  | PBool b =>
      if Bool.eqb b wanted then ret tt
      else add_error (WrongInInput recipe_path var value)
  | _ => add_error (WrongInInput recipe_path var value)
  end.

Definition validate_self_service (recipe_path : pystr) (input_section : pyval) : M unit :=
  validate_flag recipe_path (str "SELF_SERVICE") true input_section.

Definition validate_automatic_install (recipe_path : pystr) (input_section : pyval) : M unit :=
  validate_flag recipe_path (str "AUTOMATIC_INSTALL") false input_section.

(** A variable of [Input] that must be a given string. *)
Definition validate_literal (recipe_path var expected : pystr)
    (input_section : pyval) : M unit :=
  value <- lift (get input_section var PNone) ;;
  match value with
  | PNone => add_error (MissingInInput recipe_path var)
  | _ =>
      if negb (is_str expected value)
      then add_error (WrongInInput recipe_path var value)
      else ret tt
  end.

Definition validate_gitops_software_dir (recipe_path : pystr) (input_section : pyval) : M unit :=
  validate_literal recipe_path (str "FLEET_GITOPS_SOFTWARE_DIR")
    (str "lib/macos/software") input_section.

Definition validate_gitops_team_yaml_path (recipe_path : pystr) (input_section : pyval) : M unit :=
  validate_literal recipe_path (str "FLEET_GITOPS_TEAM_YAML_PATH")
    (str "teams/workstations.yml") input_section.

(** One argument of the stage that must be a given placeholder. *)
Definition check_argument (recipe_path : pystr) (args : pyval)
    (arg expected : pystr) : M unit :=
  value <- lift (get args arg PNone) ;;
  if negb (is_str expected value)
  then add_error (BadProcessArgument recipe_path arg value)
  else ret tt.

Definition validate_process_arguments (recipe_path : pystr) (args : pyval)
    (is_gitops : bool) : M unit :=
  check_argument recipe_path args (str "self_service") (str "%SELF_SERVICE%") ;;
  check_argument recipe_path args (str "automatic_install")
    (str "%AUTOMATIC_INSTALL%") ;;
  if is_gitops
  then
    check_argument recipe_path args (str "gitops_software_dir")
      (str "%FLEET_GITOPS_SOFTWARE_DIR%") ;;
    check_argument recipe_path args (str "gitops_team_yaml_path")
      (str "%FLEET_GITOPS_TEAM_YAML_PATH%")
  else ret tt.

(** What opening and loading the file gave: one of the two handlers of
    the [try], or the document. *)
Inductive loaded :=
| YamlError (e : pystr)
| OtherError (e : pystr)
| Loaded (data : pyval).

Definition validate_recipe (recipe_path : pystr) (file : loaded) : M unit :=
  incr_recipe_count ;;
  validate_filename recipe_path ;;
  validate_vendor_folder recipe_path ;;
  match file with
  | YamlError e => add_error (YamlSyntaxError recipe_path e)
  | OtherError e => add_error (YamlParseFailed recipe_path e)
  | Loaded data =>
      validate_required_fields recipe_path data ;;
      let is_gitops := contains (str ".gitops.") recipe_path in
      let is_direct := contains (str ".direct.") recipe_path in
      (if is_gitops then incr_gitops_count
       else if is_direct then incr_direct_count
       else ret tt) ;;
      validate_identifier recipe_path data is_gitops is_direct ;;
      validate_single_processor recipe_path data ;;
      input_section <- lift (get data (str "Input") (PDict [])) ;;
      if negb (truthy input_section)
      then add_error (MissingInput recipe_path)
      else
        validate_name recipe_path input_section ;;
        validate_self_service recipe_path input_section ;;
        validate_automatic_install recipe_path input_section ;;
        (if is_gitops
         then validate_gitops_software_dir recipe_path input_section ;;
              validate_gitops_team_yaml_path recipe_path input_section
         else ret tt) ;;
        validate_categories recipe_path input_section ;;
        process_list <- lift (get data (str "Process") (PList [])) ;;
        if truthy process_list
        then
          n <- lift (py_len process_list) ;;
          if 0 <? n
          then
            first <- lift (py_first process_list) ;;
            args <- lift (get first (str "Arguments") (PDict [])) ;;
            validate_process_arguments recipe_path args is_gitops
          else ret tt
        else ret tt
  end.

(** The lines of the final report, by kind. *)
Inductive report_line :=
| LTitle
| LStatistics (total direct gitops : nat)
| LResults (n_errors n_warnings : nat)
| LErrorsHeader (n : nat)
| LWarningsHeader (n : nat)
| LBullet (m : message)
| LAllComply
| LFailed
| LCompletedWithWarnings.

(** [report_results]: the printed report and the exit code. *)
Definition report_results (v : validator) : list report_line * nat :=
  let head :=
    [LTitle;
     LStatistics (recipe_count v) (direct_count v) (gitops_count v);
     LResults (length (errors v)) (length (warnings v))] in
  let errs :=
    match errors v with
    | [] => []
    | _ :: _ => LErrorsHeader (length (errors v)) :: map LBullet (errors v)
    end in
  let warns :=
    match warnings v with
    | [] => []
    | _ :: _ => LWarningsHeader (length (warnings v)) :: map LBullet (warnings v)
    end in
  match errors v, warnings v with
  | [], [] => (head ++ errs ++ warns ++ [LAllComply], 0)
  | _ :: _, _ => (head ++ errs ++ warns ++ [LFailed], 1)
  | [], _ :: _ => (head ++ errs ++ warns ++ [LCompletedWithWarnings], 0)
  end.

Fixpoint validate_each (files : list (pystr * loaded)) : M unit :=
  match files with
  | [] => ret tt
  | (recipe_file, file) :: rest =>
      validate_recipe recipe_file file ;; validate_each rest
  end.

(** The order of strings, by code points. *)
Fixpoint str_ltb (a b : pystr) : bool :=
  match a, b with
  | _, [] => false
  | [], _ :: _ => true
  | x :: a', y :: b' =>
      if N.ltb x y then true
      else if N.eqb x y then str_ltb a' b'
      else false
  end.

Fixpoint insert_sorted (f : pystr * loaded) (l : list (pystr * loaded))
  : list (pystr * loaded) :=
  match l with
  | [] => [f]
  | g :: l' =>
      if str_ltb (fst f) (fst g) then f :: l else g :: insert_sorted f l'
  end.

(** [sorted(recipe_files)] *)
Definition sorted (l : list (pystr * loaded)) : list (pystr * loaded) :=
  fold_right insert_sorted [] l.

(** [validate_all_recipes], on the recipe files that the search finds,
    each with what loading it gives. *)
Definition validate_all_recipes (found : list (pystr * loaded))
  : M (list report_line * nat) :=
  let recipe_files :=
    filter (fun f => negb (contains (str "FleetImporter") (fst f))) found in
  validate_each (sorted recipe_files) ;;
  fun v => (v, Ok (report_results v)).

(** *** Reading the report *)

(** The entry says that the top-level key is not there. *)
Definition reports_absence (key : pystr) (m : message) : bool :=
  match m with
  | MissingRequiredFields _ missing => existsb (streq key) missing
  | MissingIdentifier _ => streq key (str "Identifier")
  | MissingProcess _ => streq key (str "Process")
  | MissingInput _ => streq key (str "Input")
  | _ => false
  end.

(** The entry comes from a check of the variables of [Input]. *)
Definition from_input_check (m : message) : bool :=
  match m with
  | MissingInInput _ _ | WrongInInput _ _ _ | InvalidCategories _ _ => true
  | _ => false
  end.

(** The entry comes from a check of the stages of [Process]. *)
Definition from_process_check (m : message) : bool :=
  match m with
  | ProcessCount _ _ | NoFleetImporter _ | BadProcessArgument _ _ _ => true
  | _ => false
  end.

(** The rule of the style guide that an entry belongs to. *)
Inductive rule :=
| RFilename | RVendor | RParse | RRequired | RIdentifier
| RProcessSection | RProcessStages | RInputSection | RInputVars.

Definition rule_of (m : message) : rule :=
  match m with
  | BadFilename _ => RFilename
  | VendorAtRoot _ | VendorSpaces _ _ => RVendor
  | YamlSyntaxError _ _ | YamlParseFailed _ _ => RParse
  | MissingRequiredFields _ _ => RRequired
  | MissingIdentifier _ | IdentifierPrefix _ _
  | IdentifierNotDirect _ _ | IdentifierNotGitops _ _ => RIdentifier
  | MissingProcess _ => RProcessSection
  | ProcessCount _ _ | NoFleetImporter _ | BadProcessArgument _ _ _ => RProcessStages
  | MissingInput _ => RInputSection
  | MissingInInput _ _ | WrongInInput _ _ _ | InvalidCategories _ _ => RInputVars
  end.

(** [v'] is [v] with the entries [es] and [ws] added to its two lists. *)
Definition grown (v v' : validator) (es ws : list message) : Prop :=
  errors v' = errors v ++ es /\ warnings v' = warnings v ++ ws.

(** A method that only adds entries, each with the property [P], to the
    two lists. *)
Definition emits {A} (P : message -> Prop) (m : M A) : Prop :=
  forall v, exists es ws,
    grown v (fst (m v)) es ws /\ Forall P es /\ Forall P ws.

(** A method that leaves the two counts of modes as they are. *)
Definition keeps_counts {A} (m : M A) : Prop :=
  forall v, direct_count (fst (m v)) = direct_count v
            /\ gitops_count (fst (m v)) = gitops_count v.

(** The file gets as far as the count of its mode: it loaded, and as a
    value in which the check of the required fields can look for a key. *)
Definition reaches_count (file : loaded) : bool :=
  match file with
  | Loaded (PDict _) | Loaded (PList _) | Loaded (PStr _) => true
  | _ => false
  end.

(** The required fields that are not keys of the mapping. *)
Definition missing_fields (d : list (pyval * pyval)) : list pystr :=
  filter (fun field => negb (existsb (is_str field) (map fst d)))
    [str "Description"; str "Identifier"; str "Input"; str "Process"].

(** An entry that neither says that [key] is not there nor comes from a
    check that [dependent] picks out. *)
Definition unrelated (key : pystr) (dependent : message -> bool) (m : message) : Prop :=
  reports_absence key m = false /\ dependent m = false.

(** The documents of the examples. *)
Definition arguments_example : pyval :=
  PDict [(PStr (str "self_service"), PStr (str "%SELF_SERVICE%"));
         (PStr (str "automatic_install"), PStr (str "%AUTOMATIC_INSTALL%"));
         (PStr (str "gitops_software_dir"), PStr (str "%FLEET_GITOPS_SOFTWARE_DIR%"));
         (PStr (str "gitops_team_yaml_path"), PStr (str "%FLEET_GITOPS_TEAM_YAML_PATH%"))].

Definition input_example (extra : list (pyval * pyval)) : pyval :=
  PDict ([(PStr (str "NAME"), PStr (str "App"));
          (PStr (str "SELF_SERVICE"), PBool true);
          (PStr (str "AUTOMATIC_INSTALL"), PBool false);
          (PStr (str "FLEET_GITOPS_SOFTWARE_DIR"), PStr (str "lib/macos/software"));
          (PStr (str "FLEET_GITOPS_TEAM_YAML_PATH"), PStr (str "teams/workstations.yml"))]
         ++ extra).

Definition process_example : pyval :=
  PList [PDict [(PStr (str "Processor"), PStr (str "com.github.fleet.FleetImporter/FleetImporter"));
                (PStr (str "Arguments"), arguments_example)]].

Definition recipe_example (mode : pystr) (input process : list (pyval * pyval)) : pyval :=
  PDict ([(PStr (str "Description"), PStr (str "Uploads App to Fleet."));
          (PStr (str "Identifier"), PStr (str "com.github.fleet." ++ mode ++ str ".App"))]
         ++ input ++ process).

Definition gitops_path : pystr := str "Vendor/App.fleet.gitops.recipe.yaml".
Definition direct_path : pystr := str "Vendor/App.fleet.direct.recipe.yaml".

Definition browsers_gaming : pyval :=
  PList [PStr (str "Browsers"); PStr (str "Gaming")].

(** A gitops recipe that follows the guide but for its categories. *)
Definition gaming_recipe : pyval :=
  recipe_example (str "gitops")
    [(PStr (str "Input"),
      input_example [(PStr (str "CATEGORIES"), browsers_gaming)])]
    [(PStr (str "Process"), process_example)].

(** A direct recipe whose only stage is a string, not a mapping. *)
Definition string_stage_recipe : pyval :=
  recipe_example (str "direct")
    [(PStr (str "Input"), input_example [])]
    [(PStr (str "Process"), PList [PStr (str "FleetImporter")])].

(** A direct recipe whose [Input] is a string, not a mapping. *)
Definition string_input_recipe : pyval :=
  recipe_example (str "direct")
    [(PStr (str "Input"), PStr (str "NAME"))]
    [(PStr (str "Process"), process_example)].

(** A direct recipe without [Input]. *)
Definition no_input_recipe : pyval :=
  recipe_example (str "direct") [] [(PStr (str "Process"), process_example)].

(** A gitops recipe without [Process]. *)
Definition no_process_recipe : pyval :=
  recipe_example (str "gitops") [(PStr (str "Input"), input_example [])] [].

(** A gitops recipe that follows the guide. *)
Definition good_recipe : pyval :=
  recipe_example (str "gitops")
    [(PStr (str "Input"), input_example [])]
    [(PStr (str "Process"), process_example)].

(** A direct recipe that follows the guide but for its two stages. *)
Definition two_stage_recipe : pyval :=
  recipe_example (str "direct")
    [(PStr (str "Input"), input_example [])]
    [(PStr (str "Process"),
      match process_example with
      | PList stages => PList (stages ++ stages)
      | other => other
      end)].

(** A path with both tokens: the folder of the vendor has the one, the
    name of the file the other. *)
Definition both_tokens_path : pystr :=
  str "Acme.direct.tools/App.fleet.gitops.recipe.yaml".

(** The category is not one of the supported ones. *)
Definition unsupported (category : pyval) : bool :=
  negb (existsb (fun s => is_str s category) SUPPORTED_CATEGORIES).

(** *** Further notions for reading a run *)

(** A method that leaves a component of the object as it is. *)
Definition keeps {A B} (f : validator -> B) (m : M A) : Prop :=
  forall v, f (fst (m v)) = f v.

(** A method that returns, whatever the object. *)
Definition returns {A} (m : M A) : Prop :=
  forall v, exists a, snd (m v) = Ok a.

(** The path that an entry starts with. *)
Definition path_of (m : message) : pystr :=
  match m with
  | BadFilename p | VendorAtRoot p | VendorSpaces p _
  | YamlSyntaxError p _ | YamlParseFailed p _
  | MissingRequiredFields p _ | MissingIdentifier p | IdentifierPrefix p _
  | IdentifierNotDirect p _ | IdentifierNotGitops p _
  | MissingProcess p | ProcessCount p _ | NoFleetImporter p
  | MissingInput p | MissingInInput p _ | WrongInInput p _ _
  | InvalidCategories p _ | BadProcessArgument p _ _ => p
  end.

(** The files that [validate_all_recipes] keeps. *)
Definition kept (found : list (pystr * loaded)) : list (pystr * loaded) :=
  filter (fun f => negb (contains (str "FleetImporter") (fst f))) found.

(** The entry of a file that did not load. *)
Definition load_error (p : pystr) (file : loaded) : list message :=
  match file with
  | YamlError e => [YamlSyntaxError p e]
  | OtherError e => [YamlParseFailed p e]
  | Loaded _ => []
  end.

(** The warning of the number of stages that [validate_single_processor]
    gives for a document. *)
Definition stage_warning (p : pystr) (data : pyval) : list message :=
  match get data (str "Process") (PList []) with
  | Ok process_list =>
      if truthy process_list
      then match py_len process_list with
           | Ok n => if n =? 1 then [] else [ProcessCount p n]
           | Raised _ => []
           end
      else []
  | Raised _ => []
  end.

Definition direct_suffix : pystr := str ".fleet.direct.recipe.yaml".
Definition gitops_suffix : pystr := str ".fleet.gitops.recipe.yaml".

(** *** Documents of the expected types *)

Definition or_default (o : option pyval) (default : pyval) : pyval :=
  match o with
  | Some x => x
  | None => default
  end.

(** An [Identifier] that is false or a string. *)
Definition identifier_ok (x : pyval) : bool :=
  negb (truthy x) || match x with PStr _ => true | _ => false end.

(** A [Processor] in which [in] can look. *)
Definition processor_ok (x : pyval) : bool :=
  match x with
  | PStr _ | PList _ | PDict _ => true
  | _ => false
  end.

Definition stage_ok (stage : pyval) : bool :=
  match stage with
  | PDict sd => processor_ok (or_default (dict_get sd (str "Processor")) (PStr []))
  | _ => true
  end.

(** A stage that is a mapping, with [Arguments] a mapping when there. *)
Definition arguments_ok (stage : pyval) : bool :=
  match stage with
  | PDict sd =>
      match or_default (dict_get sd (str "Arguments")) (PDict []) with
      | PDict _ => true
      | _ => false
      end
  | _ => false
  end.

(** A [Process] that is false or a list of stages. *)
Definition process_ok (x : pyval) : bool :=
  negb (truthy x)
  || match x with
     | PList (first :: rest) =>
         forallb stage_ok (first :: rest) && arguments_ok first
     | _ => false
     end.

(** [CATEGORIES] false or a list of scalars. *)
Definition categories_ok (x : pyval) : bool :=
  negb (truthy x)
  || match x with
     | PList cats => forallb hashable cats
     | _ => false
     end.

(** An [Input] that is false or a mapping. *)
Definition input_ok (x : pyval) : bool :=
  negb (truthy x)
  || match x with
     | PDict inp =>
         categories_ok (or_default (dict_get inp (str "CATEGORIES")) (PList []))
     | _ => false
     end.

(** A document that is a mapping whose sections, when there, have the
    types that the guide gives them. *)
Definition well_typed (data : pyval) : bool :=
  match data with
  | PDict d =>
      identifier_ok (or_default (dict_get d (str "Identifier")) (PStr []))
      && process_ok (or_default (dict_get d (str "Process")) (PList []))
      && input_ok (or_default (dict_get d (str "Input")) (PDict []))
  | _ => false
  end.

(** *** What a recipe without an error has *)

Definition required_keys : list pystr :=
  [str "Description"; str "Identifier"; str "Input"; str "Process"].

(** The name of the file has one of the two suffixes, the path has a
    folder, the four sections are there, the identifier has the prefix
    and the token of the mode of the path, a stage has the processor, and
    [Input] has its name and its two switches, and in gitops mode its two
    paths. *)
Definition compliant (p : pystr) (d : list (pyval * pyval)) : Prop :=
  endswith direct_suffix (basename p) || endswith gitops_suffix (basename p) = true
  /\ count slash p <> 0
  /\ (forall key, In key required_keys -> dict_get d key <> None)
  /\ (exists ident,
        dict_get d (str "Identifier") = Some (PStr ident)
        /\ startswith (str "com.github.fleet.") ident = true
        /\ (contains (str ".direct.") p = true ->
            contains (str ".direct.") ident = true)
        /\ (contains (str ".direct.") p = false ->
            contains (str ".gitops.") p = true ->
            contains (str ".gitops.") ident = true))
  /\ (exists process_list items sd,
        dict_get d (str "Process") = Some process_list
        /\ py_iter process_list = Ok items
        /\ In (PDict sd) items
        /\ py_in (str "FleetImporter")
             (or_default (dict_get sd (str "Processor")) (PStr [])) = Ok true)
  /\ (exists inp,
        dict_get d (str "Input") = Some (PDict inp)
        /\ (exists name, dict_get inp (str "NAME") = Some name /\ name <> PNone)
        /\ dict_get inp (str "SELF_SERVICE") = Some (PBool true)
        /\ dict_get inp (str "AUTOMATIC_INSTALL") = Some (PBool false)
        /\ (contains (str ".gitops.") p = true ->
            dict_get inp (str "FLEET_GITOPS_SOFTWARE_DIR")
              = Some (PStr (str "lib/macos/software"))
            /\ dict_get inp (str "FLEET_GITOPS_TEAM_YAML_PATH")
               = Some (PStr (str "teams/workstations.yml")))).

(** The arguments of the stage name the variables of [Input]. *)
Definition bound (p : pystr) (a : list (pyval * pyval)) : Prop :=
  dict_get a (str "self_service") = Some (PStr (str "%SELF_SERVICE%"))
  /\ dict_get a (str "automatic_install") = Some (PStr (str "%AUTOMATIC_INSTALL%"))
  /\ (contains (str ".gitops.") p = true ->
      dict_get a (str "gitops_software_dir")
        = Some (PStr (str "%FLEET_GITOPS_SOFTWARE_DIR%"))
      /\ dict_get a (str "gitops_team_yaml_path")
         = Some (PStr (str "%FLEET_GITOPS_TEAM_YAML_PATH%"))).

(** Each category is one of the four of the guide. *)
Definition supported_all (cats : list pyval) : Prop :=
  Forall (fun c => exists s, c = PStr s /\ In s SUPPORTED_CATEGORIES) cats.

(** One file comes no later than the other in [sorted]: its path is not
    above the other's. *)
Definition path_le (f g : pystr * loaded) : Prop :=
  str_ltb (fst g) (fst f) = false.

End Compliance.

(** ** The migration script ([update_recipes.py]) *)
Module UpdateRecipes.
Import PyStr.

Definition nl : pystr := [10].
Definition dquote : pystr := [34].

Definition RECIPE_DIRS : list pystr :=
  [str "AgileBits"; str "Anthropic"; str "AutoPkg"; str "Caffeine";
   str "Docker"; str "GitHub"; str "Google"; str "GPGSuite"; str "iTerm2";
   str "Microsoft"; str "Mozilla"; str "NorthPoleSecurity"; str "Notion";
   str "Postman"; str "RaycastTechnologies"; str "Signal"; str "Slack";
   str "UTM"; str "Zoom"].

(** The text that [INPUT_PATTERN] matches.  The pattern has no
    metacharacter but the parentheses of its one group, which holds the
    whole match. *)
Definition INPUT_MATCH : pystr :=
  str "  # Mode selector" ++ nl ++ str "  gitops_mode: false".

(** [INPUT_REPLACEMENT] up to its [\1]. *)
Definition INPUT_INSERT : pystr :=
  str "  # Optional: Auto-update policy automation" ++ nl
  ++ str "  AUTO_UPDATE_ENABLED: false" ++ nl
  ++ str "  AUTO_UPDATE_POLICY_NAME: " ++ dquote
  ++ str "autopkg-auto-update-%NAME%" ++ dquote ++ nl
  ++ nl.

(** The text that [ARGS_PATTERN] matches. *)
Definition ARGS_MATCH : pystr :=
  str "    # GitOps-specific options" ++ nl
  ++ str "    gitops_software_dir: " ++ dquote
  ++ str "%FLEET_GITOPS_SOFTWARE_DIR%" ++ dquote.

(** [ARGS_REPLACEMENT] up to its [\1]. *)
Definition ARGS_INSERT : pystr :=
  str "    # Optional: Auto-update policy automation" ++ nl
  ++ str "    auto_update_enabled: " ++ dquote
  ++ str "%AUTO_UPDATE_ENABLED%" ++ dquote ++ nl
  ++ str "    auto_update_policy_name: " ++ dquote
  ++ str "%AUTO_UPDATE_POLICY_NAME%" ++ dquote ++ nl
  ++ nl.

(** [pattern.sub(replacement, content)] for a pattern that matches the
    fixed text [matched], all of it in group 1, and a replacement that is
    [insert] followed by [\1]: the matches are found from the left and do
    not overlap, as the occurrences that [replace] finds. *)
Definition sub_before (matched insert content : pystr) : pystr :=
  replace matched (insert ++ matched) content.

Definition MARKER : pystr := str "AUTO_UPDATE_ENABLED".

(** [update_recipe], on the content of the file: the content of the file
    afterwards and the value returned. *)
Definition update_recipe (content : pystr) : pystr * bool :=
  if contains MARKER content
  then (content, false)
  else
    let content := sub_before INPUT_MATCH INPUT_INSERT content in
    let content := sub_before ARGS_MATCH ARGS_INSERT content in
    (content, true).

(** The loop of [main] over the files of one directory: the files
    afterwards and the two counts. *)
Fixpoint update_files (recipe_files : list pystr) (updated_count skipped_count : nat)
  : list pystr * nat * nat :=
  match recipe_files with
  | [] => ([], updated_count, skipped_count)
  | content :: rest =>
      let (content', updated) := update_recipe content in
      let '(rest', u, k) :=
        if updated
        then update_files rest (S updated_count) skipped_count
        else update_files rest updated_count (S skipped_count) in
      (content' :: rest', u, k)
  end.

(** The loop of [main] over the directories.  A directory is given by
    what the search finds in it: [None] when the directory does not
    exist, the contents of its recipe files otherwise. *)
Fixpoint update_dirs (dirs : list (option (list pystr)))
    (updated_count skipped_count : nat)
  : list (option (list pystr)) * nat * nat :=
  match dirs with
  | [] => ([], updated_count, skipped_count)
  | None :: rest =>
      let '(rest', u, k) := update_dirs rest updated_count skipped_count in
      (None :: rest', u, k)
  | Some recipe_files :: rest =>
      let '(files', u, k) := update_files recipe_files updated_count skipped_count in
      let '(rest', u', k') := update_dirs rest u k in
      (Some files' :: rest', u', k')
  end.

(** [main], on the file system seen through the names of [RECIPE_DIRS]. *)
Definition main (fs : pystr -> option (list pystr))
  : list (option (list pystr)) * nat * nat :=
  update_dirs (map fs RECIPE_DIRS) 0 0.


(** The files of the directories that exist, in the order of the loops. *)
Definition all_files (dirs : list (option (list pystr))) : list pystr :=
  concat (map (fun d => match d with Some files => files | None => [] end) dirs).

End UpdateRecipes.

(* ================================================================== *)
(** * Properties *)

Module PyStrFacts.
Import PyStr.

Lemma startswith_app (pre s : pystr) : startswith pre (pre ++ s) = true.
Proof.
  induction pre as [|p pre IH]; simpl; [reflexivity|].
  now rewrite N.eqb_refl, IH.
Qed.

Lemma startswith_split (pre s : pystr) :
  startswith pre s = true -> s = pre ++ skipn (length pre) s.
Proof.
  revert s; induction pre as [|p pre IH]; intros s H; [reflexivity|].
  destruct s as [|c s]; simpl in H; [discriminate|].
  apply andb_true_iff in H as [Hc Hs].
  apply N.eqb_eq in Hc; subst c.
  simpl. f_equal. now apply IH.
Qed.

(** Passing over [k] characters is dropping them. *)
Lemma replace_from_skip (old new : pystr) (k : nat) (s : pystr) :
  replace_from old new k s = replace_from old new 0 (skipn k s).
Proof.
  revert s; induction k as [|k IH]; intros s; [reflexivity|].
  destruct s as [|c r]; [reflexivity|]. simpl. apply IH.
Qed.

(** The two equations of [replace] for a non-empty [old]. *)
Lemma replace_hit (old new s : pystr) :
  old <> [] -> startswith old s = true ->
  replace old new s = new ++ replace old new (skipn (length old) s).
Proof.
  intros Hold H.
  destruct old as [|o old]; [congruence|].
  unfold replace.
  destruct s as [|c r]; [discriminate|].
  cbn [replace_from]. rewrite H.
  rewrite replace_from_skip. simpl. now rewrite Nat.sub_0_r.
Qed.

Lemma replace_miss (old new : pystr) (c : char) (r : pystr) :
  old <> [] -> startswith old (c :: r) = false ->
  replace old new (c :: r) = c :: replace old new r.
Proof.
  intros Hold H.
  destruct old as [|o old]; [congruence|].
  unfold replace. cbn [replace_from]. now rewrite H.
Qed.

Lemma replace_nil (old new : pystr) : old <> [] -> replace old new [] = [].
Proof. destruct old; [congruence|reflexivity]. Qed.

Lemma startswith_cons (p : char) (pre : pystr) (c : char) (s : pystr) :
  startswith (p :: pre) (c :: s) = (p =? c) && startswith pre s.
Proof. reflexivity. Qed.

Lemma contains_cons (sub : pystr) (c : char) (s : pystr) :
  contains sub (c :: s) = startswith sub (c :: s) || contains sub s.
Proof. reflexivity. Qed.

Lemma startswith_length (pre s : pystr) :
  startswith pre s = true -> (length pre <= length s)%nat.
Proof.
  revert s; induction pre as [|p pre IH]; intros [|c s] H; simpl in *;
    try lia; try discriminate.
  apply andb_true_iff in H as [_ H]. apply IH in H. lia.
Qed.

Lemma startswith_extend (pre a z : pystr) :
  startswith pre a = true -> startswith pre (a ++ z) = true.
Proof.
  revert a; induction pre as [|p pre IH]; intros [|c a] H;
    try reflexivity; try discriminate.
  simpl in *. apply andb_true_iff in H as [-> H]. now apply IH.
Qed.

Lemma contains_short (sub s : pystr) :
  (length s < length sub)%nat -> contains sub s = false.
Proof.
  induction s as [|c s IH]; intros H.
  - destruct sub; [simpl in H; lia|reflexivity].
  - rewrite contains_cons. rewrite IH by (simpl in H; lia).
    rewrite orb_false_r.
    destruct (startswith sub (c :: s)) eqn:E; [|reflexivity].
    apply startswith_length in E. lia.
Qed.

(** A string in which [old] does not occur is returned as it is. *)
Lemma replace_absent (old new s : pystr) :
  old <> [] -> contains old s = false -> replace old new s = s.
Proof.
  intros Hold. induction s as [|c s IH]; intros H.
  - now apply replace_nil.
  - rewrite contains_cons in H. apply orb_false_iff in H as [H1 H2].
    rewrite replace_miss by assumption. now rewrite IH.
Qed.

Lemma join_cons (sep p : pystr) (ps : list pystr) :
  ps <> [] -> join sep (p :: ps) = p ++ sep ++ join sep ps.
Proof. destruct ps; [congruence|reflexivity]. Qed.

Lemma join_cons_cons (sep : pystr) (c : char) (p : pystr) (ps : list pystr) :
  join sep ((c :: p) :: ps) = c :: join sep (p :: ps).
Proof. destruct ps; reflexivity. Qed.

Lemma join_nil_concat (ps : list pystr) : join [] ps = concat ps.
Proof.
  induction ps as [|p ps IH]; [reflexivity|].
  destruct ps as [|q ps].
  - simpl. now rewrite app_nil_r.
  - rewrite join_cons by discriminate. rewrite IH. reflexivity.
Qed.

Lemma contains_app_r (sub a z : pystr) :
  contains sub (a ++ z) = false -> contains sub z = false.
Proof.
  induction a as [|c a IH]; intros H; [assumption|].
  simpl app in H. rewrite contains_cons in H.
  apply orb_false_iff in H as [_ H]. now apply IH.
Qed.

End PyStrFacts.

Module PolicyArtifactFacts.
Import PyStr PyStrFacts PolicyArtifact.

Lemma pieces_nonempty (tok s : pystr) (ps : list pystr) :
  pieces_of tok s ps -> ps <> [].
Proof. intros []; discriminate. Qed.

Lemma pieces_join (tok s : pystr) (ps : list pystr) :
  pieces_of tok s ps -> s = join tok ps.
Proof.
  induction 1 as [s H|p rest ps Hp Hps IH]; [reflexivity|].
  rewrite join_cons by (eapply pieces_nonempty; eassumption).
  now rewrite <- IH.
Qed.

(** One more character in front of the first piece, when no occurrence
    starts at it. *)
Lemma pieces_push (tok : pystr) (c : char) (r : pystr) (ps : list pystr) :
  tok <> [] -> startswith tok (c :: r) = false -> pieces_of tok r ps ->
  exists p ps', ps = p :: ps' /\ pieces_of tok (c :: r) ((c :: p) :: ps').
Proof.
  intros Htok Hc Hps.
  destruct Hps as [s H|p rest ps Hp Hps].
  - exists s, []. split; [reflexivity|].
    apply pieces_last. rewrite contains_cons, Hc, H. reflexivity.
  - exists p, ps. split; [reflexivity|].
    apply (pieces_cons tok (c :: p) rest ps); [|assumption].
    simpl app. rewrite contains_cons, Hp, orb_false_r.
    destruct (startswith tok (c :: p ++ removelast tok)) eqn:E; [|reflexivity].
    apply startswith_extend with (z := [last tok 0] ++ rest) in E.
    replace ((c :: p ++ removelast tok) ++ [last tok 0] ++ rest)
      with (c :: p ++ tok ++ rest) in E; [simpl app in Hc; congruence|].
    rewrite (app_removelast_last 0 Htok) at 1.
    simpl. now rewrite <- !app_assoc.
Qed.

(** [replace] cuts the string at the occurrences of [old] found from the
    left and joins the pieces with [new]. *)
Lemma replace_pieces (old new : pystr) :
  old <> [] ->
  forall s, exists ps, pieces_of old s ps /\ replace old new s = join new ps.
Proof.
  intros Hold s.
  remember (length s) as n eqn:Hn. revert s Hn.
  induction n as [n IH] using lt_wf_ind. intros s Hn.
  destruct s as [|c r].
  - exists [[]]. split.
    + apply pieces_last. destruct old; [congruence|reflexivity].
    + now apply replace_nil.
  - destruct (startswith old (c :: r)) eqn:E.
    + pose proof (startswith_split _ _ E) as Hs.
      destruct (IH (length (skipn (length old) (c :: r)))) with
        (s := skipn (length old) (c :: r)) as (ps & Hps & Hrep);
        [|reflexivity|].
      { rewrite length_skipn. subst n.
        destruct old as [|o old]; [congruence|]. cbn [length].
        lia. }
      exists ([] :: ps). split.
      * rewrite Hs at 1. apply (pieces_cons old [] _ ps); [|assumption].
        apply contains_short. simpl app.
        pose proof (f_equal (@length char) (app_removelast_last 0 Hold)) as Hl.
        rewrite length_app in Hl. cbn [length] in Hl.
        unfold pystr, char in *. lia.
      * rewrite replace_hit by assumption.
        rewrite join_cons by (eapply pieces_nonempty; eassumption).
        now rewrite Hrep.
    + destruct (IH (length r)) with (s := r) as (ps & Hps & Hrep);
        [subst n; simpl; lia|reflexivity|].
      destruct (pieces_push old c r ps Hold E Hps) as (p & ps' & -> & Hpush).
      exists ((c :: p) :: ps'). split; [assumption|].
      rewrite replace_miss by assumption.
      now rewrite join_cons_cons, Hrep.
Qed.

Lemma escape_cons (c : char) (x : pystr) :
  escape (c :: x) = if c =? quote then quote :: quote :: escape x else c :: escape x.
Proof.
  unfold escape.
  destruct (c =? quote) eqn:E.
  - apply N.eqb_eq in E; subst c.
    rewrite replace_hit; [reflexivity|discriminate|reflexivity].
  - rewrite replace_miss; [reflexivity|discriminate|].
    change (str "'") with [quote]. cbn [startswith].
    now rewrite N.eqb_sym, E.
Qed.

Lemma unescape_escape (x : pystr) : unescape (escape x) = x.
Proof.
  induction x as [|c x IH]; [reflexivity|].
  rewrite escape_cons. destruct (c =? quote) eqn:E.
  - apply N.eqb_eq in E; subst c.
    unfold unescape. rewrite replace_hit; [|discriminate|reflexivity].
    simpl skipn. fold (unescape (escape x)). now rewrite IH.
  - unfold unescape. rewrite replace_miss; [|discriminate|].
    + fold (unescape (escape x)). now rewrite IH.
    + change (str "''") with [quote; quote]. cbn [startswith].
      now rewrite N.eqb_sym, E.
Qed.

Lemma read_literal_escape (x rest : pystr) :
  startswith (str "'") rest = false ->
  read_literal (escape x ++ quote :: rest) = Some (x, rest).
Proof.
  intros Hrest. induction x as [|c x IH].
  - change (str "'") with [quote] in Hrest.
    destruct rest as [|d rest]; [reflexivity|].
    cbn [startswith] in Hrest. rewrite andb_true_r, N.eqb_sym in Hrest.
    cbn [escape replace str map list_ascii_of_string replace_from app read_literal].
    now rewrite N.eqb_refl, Hrest.
  - rewrite escape_cons. destruct (c =? quote) eqn:E.
    + apply N.eqb_eq in E; subst c.
      cbn [app read_literal]. rewrite N.eqb_refl, IH. reflexivity.
    + cbn [app read_literal]. rewrite E, IH. reflexivity.
Qed.

Lemma count_app (c : char) (s t : pystr) :
  count c (s ++ t) = (count c s + count c t)%nat.
Proof.
  induction s as [|d s IH]; simpl; [reflexivity|].
  rewrite IH. now destruct (d =? c).
Qed.

Lemma count_escape (x : pystr) :
  count quote (escape x) = (2 * count quote x)%nat.
Proof.
  induction x as [|c x IH]; [reflexivity|].
  rewrite escape_cons. destruct (c =? quote) eqn:E.
  - cbn [count]. rewrite N.eqb_refl, E, IH. lia.
  - cbn [count]. rewrite E, IH. lia.
Qed.

Lemma quote_runs_escape (cur : nat) (x : pystr) :
  Nat.Even cur -> Forall Nat.Even (quote_runs_from cur (escape x)).
Proof.
  revert cur; induction x as [|c x IH]; intros cur Hcur.
  - simpl. destruct cur; constructor; [assumption|constructor].
  - rewrite escape_cons. destruct (c =? quote) eqn:E.
    + cbn [quote_runs_from]. rewrite N.eqb_refl. apply IH.
      destruct Hcur as [k ->]. exists (S k). lia.
    + cbn [quote_runs_from]. rewrite E. apply Forall_app. split.
      * destruct cur; constructor; [assumption|constructor].
      * apply IH. exists O. reflexivity.
Qed.

(** *** [slugify] *)
Section Slugify.
Variable U : unicode_db.

Lemma not_sep_not_hyphen (c : char) : is_sep U c = false -> (hyphen =? c) = false.
Proof.
  unfold is_sep. intros H. apply orb_false_iff in H as [_ H].
  now rewrite N.eqb_sym.
Qed.

Lemma do_lower_lowered (before s : pystr) :
  db_laws U -> Forall (lowered U) (do_lower U before s).
Proof.
  intros HU. revert before; induction s as [|c r IH]; intros before;
    [constructor|].
  cbn [do_lower]. apply Forall_app. split; [|apply IH].
  destruct (c =? capital_sigma) eqn:E.
  - constructor; [|constructor]. unfold handle_capital_sigma.
    destruct (_ && _); split;
      try apply (lower_final_sigma U HU);
      try apply (lower_small_sigma U HU); discriminate.
  - apply N.eqb_neq in E.
    apply Forall_forall. intros d Hd. now apply (lower_stable U HU c d).
Qed.

Lemma do_lower_fixed (before s : pystr) :
  Forall (lowered U) s -> do_lower U before s = s.
Proof.
  revert before; induction s as [|c r IH]; intros before H; [reflexivity|].
  inversion H as [|? ? [Hc Hs] Hr]; subst.
  cbn [do_lower]. apply N.eqb_neq in Hs. rewrite Hs, Hc, IH by assumption.
  reflexivity.
Qed.

Lemma sub_nonword_chars (P : char -> Prop) (s : pystr) :
  Forall P s ->
  Forall (fun c => P c /\ (is_word U c || isspace U c || (c =? hyphen)) = true)
         (sub_nonword U s).
Proof.
  intros H. apply Forall_forall. intros c Hc.
  apply filter_In in Hc as [Hc Hk]. split; [|assumption].
  now apply (proj1 (Forall_forall P s) H).
Qed.

Lemma sub_runs_chars (P : char -> Prop) (b : bool) (s : pystr) :
  P hyphen -> Forall P s ->
  Forall (fun c => P c /\ (c = hyphen \/ is_sep U c = false))
         (sub_runs_from U b s).
Proof.
  intros Hh. revert b; induction s as [|c r IH]; intros b H; [constructor|].
  inversion H; subst. cbn [sub_runs_from].
  destruct (is_sep U c) eqn:E.
  - apply Forall_app. split; [|now apply IH].
    destruct b; repeat constructor; auto.
  - constructor; [split; auto|now apply IH].
Qed.

Lemma sub_runs_single (b : bool) (s : pystr) :
  contains [hyphen; hyphen] (sub_runs_from U b s) = false
  /\ (b = true -> startswith [hyphen] (sub_runs_from U b s) = false).
Proof.
  revert b; induction s as [|c r IH]; intros b; [now split|].
  cbn [sub_runs_from]. destruct (is_sep U c) eqn:E.
  - destruct (IH true) as [H1 H2]. specialize (H2 eq_refl).
    destruct b; cbn [app]; [now split|]. split; [|discriminate].
    rewrite contains_cons, H1, orb_false_r.
    rewrite startswith_cons, H2. apply andb_false_r.
  - destruct (IH false) as [H1 _].
    pose proof (not_sep_not_hyphen c E) as Hc. split.
    + now rewrite contains_cons, H1, startswith_cons, Hc.
    + intros _. now rewrite startswith_cons, Hc.
Qed.

Lemma sub_runs_fixed (b : bool) (s : pystr) :
  Forall (fun c => c = hyphen \/ is_sep U c = false) s ->
  contains [hyphen; hyphen] s = false ->
  (b = true -> startswith [hyphen] s = false) ->
  sub_runs_from U b s = s.
Proof.
  revert b; induction s as [|c r IH]; intros b H Hd Hb; [reflexivity|].
  inversion H as [|? ? Hc Hr]; subst.
  rewrite contains_cons in Hd. apply orb_false_iff in Hd as [Hd1 Hd2].
  cbn [sub_runs_from]. destruct (is_sep U c) eqn:E.
  - destruct Hc as [->|Hc]; [|congruence].
    rewrite !startswith_cons, N.eqb_refl in Hd1. cbn [andb] in Hd1.
    destruct b.
    + specialize (Hb eq_refl). rewrite startswith_cons, N.eqb_refl in Hb.
      discriminate.
    + cbn [app]. f_equal. apply IH; auto.
  - f_equal. apply IH; auto. discriminate.
Qed.

Lemma sub_runs_all_sep (s : pystr) :
  Forall (fun c => is_sep U c = true) s ->
  sub_runs_from U true s = []
  /\ (sub_runs_from U false s = [] \/ sub_runs_from U false s = [hyphen]).
Proof.
  induction s as [|c r IH]; intros H; [now split; [|left]|].
  inversion H as [|? ? Hc Hr]; subst. destruct (IH Hr) as [IH1 _].
  cbn [sub_runs_from]. rewrite Hc, IH1. split; [reflexivity|now right].
Qed.

End Slugify.

Lemma drop_hyphens_suffix (s : pystr) : exists pre, s = pre ++ drop_hyphens s.
Proof.
  induction s as [|c r [pre IH]]; [now exists []|].
  cbn [drop_hyphens]. destruct (c =? hyphen).
  - exists (c :: pre). simpl. now f_equal.
  - now exists [].
Qed.

Lemma drop_hyphens_start (s : pystr) :
  startswith [hyphen] (drop_hyphens s) = false.
Proof.
  induction s as [|c r IH]; [reflexivity|].
  cbn [drop_hyphens]. destruct (c =? hyphen) eqn:E; [assumption|].
  now rewrite startswith_cons, N.eqb_sym, E.
Qed.

Lemma drop_hyphens_fixed (s : pystr) :
  startswith [hyphen] s = false -> drop_hyphens s = s.
Proof.
  destruct s as [|c r]; [reflexivity|].
  rewrite startswith_cons, andb_true_r, N.eqb_sym. intros E.
  cbn [drop_hyphens]. now rewrite E.
Qed.

Lemma sub_trailing_nil (s : pystr) : sub_trailing s = [] -> drop_hyphens s = [].
Proof.
  destruct s as [|c r]; [reflexivity|]. cbn [sub_trailing drop_hyphens].
  destruct (c =? hyphen); cbn [andb]; [|discriminate].
  destruct (at_dollar (drop_hyphens r)); [trivial|discriminate].
Qed.

Lemma sub_trailing_chars (P : char -> Prop) (s : pystr) :
  Forall P s -> Forall P (sub_trailing s).
Proof.
  induction s as [|c r IH]; intros H; [constructor|].
  inversion H; subst. cbn [sub_trailing].
  destruct (_ && _).
  - destruct (drop_hyphens_suffix r) as [pre Hpre].
    rewrite Hpre in H3. now apply Forall_app in H3.
  - constructor; auto.
Qed.

Lemma sub_trailing_start (s : pystr) :
  startswith [hyphen] s = false -> startswith [hyphen] (sub_trailing s) = false.
Proof.
  destruct s as [|c r]; [reflexivity|].
  rewrite startswith_cons, andb_true_r. intros E.
  cbn [sub_trailing]. rewrite N.eqb_sym in E. rewrite E. cbn [andb].
  now rewrite startswith_cons, N.eqb_sym, E.
Qed.

Lemma sub_trailing_single (s : pystr) :
  contains [hyphen; hyphen] s = false ->
  contains [hyphen; hyphen] (sub_trailing s) = false.
Proof.
  induction s as [|c r IH]; intros H; [reflexivity|].
  rewrite contains_cons in H. apply orb_false_iff in H as [H1 H2].
  cbn [sub_trailing]. destruct (_ && _).
  - destruct (drop_hyphens_suffix r) as [pre Hpre].
    rewrite Hpre in H2. now apply contains_app_r in H2.
  - rewrite contains_cons, (IH H2), orb_false_r.
    rewrite !startswith_cons in *.
    destruct (hyphen =? c); [|reflexivity]. cbn [andb] in *.
    destruct r as [|d r']; [reflexivity|].
    rewrite startswith_cons in H1.
    change (startswith [hyphen] (sub_trailing (d :: r'))
            = false).
    apply sub_trailing_start. now rewrite startswith_cons.
Qed.

Lemma sub_trailing_end (s : pystr) : ends_hyphen (sub_trailing s) = false.
Proof.
  induction s as [|c r IH]; [reflexivity|].
  cbn [sub_trailing].
  destruct (c =? hyphen) eqn:Ec; cbn [andb].
  - destruct (at_dollar (drop_hyphens r)) eqn:Ed.
    + destruct (drop_hyphens r) as [|d [|e t]]; try reflexivity;
        try discriminate.
      cbn in Ed. apply N.eqb_eq in Ed. now subst d.
    + cbn [ends_hyphen]. destruct (sub_trailing r) eqn:Et; [|assumption].
      apply sub_trailing_nil in Et. now rewrite Et in Ed.
  - cbn [ends_hyphen]. destruct (sub_trailing r) eqn:Et; assumption.
Qed.

Lemma sub_trailing_fixed (s : pystr) :
  Forall (fun c => c <> newline) s ->
  contains [hyphen; hyphen] s = false ->
  ends_hyphen s = false ->
  sub_trailing s = s.
Proof.
  induction s as [|c r IH]; intros Hn Hd He; [reflexivity|].
  inversion Hn as [|? ? Hc Hr]; subst.
  rewrite contains_cons in Hd. apply orb_false_iff in Hd as [Hd1 Hd2].
  cbn [sub_trailing].
  assert (Hcond : (c =? hyphen) && at_dollar (drop_hyphens r) = false).
  { destruct (c =? hyphen) eqn:Ec; [|reflexivity]. cbn [andb].
    apply N.eqb_eq in Ec; subst c.
    rewrite !startswith_cons, N.eqb_refl in Hd1. cbn [andb] in Hd1.
    destruct r as [|d r']; [discriminate|].
    change (startswith [hyphen] (d :: r') = false) in Hd1.
    rewrite (drop_hyphens_fixed _ Hd1).
    destruct r' as [|e t]; [|reflexivity].
    cbn. apply N.eqb_neq. now inversion Hr. }
  rewrite Hcond. f_equal. apply IH; auto.
  destruct r; [reflexivity|assumption].
Qed.

Lemma endswith_hyphen (s : pystr) : endswith (str "-") s = ends_hyphen s.
Proof.
  unfold endswith. change (rev (str "-")) with [hyphen].
  induction s as [|c r IH]; [reflexivity|].
  cbn [rev ends_hyphen]. destruct r as [|d r'].
  - cbn. now rewrite andb_true_r, N.eqb_sym.
  - rewrite <- IH. cbn [rev].
    destruct (rev r' ++ [d]) eqn:E; [now destruct (rev r')|reflexivity].
Qed.

Lemma lowered_hyphen (U : unicode_db) : db_laws U -> lowered U hyphen.
Proof. intros HU. split; [apply (lower_hyphen U HU)|discriminate]. Qed.

Lemma lowered_fixed (U : unicode_db) (c : char) :
  lowered U c -> lower U [c] = [c].
Proof. intros H. apply do_lower_fixed. now constructor. Qed.

Lemma slugify_chars (U : unicode_db) (t : pystr) :
  db_laws U -> Forall (slug_char U) (slugify U t).
Proof.
  intros HU. unfold slugify, sub_edges, sub_runs, lower.
  apply sub_trailing_chars.
  match goal with |- Forall _ (drop_hyphens ?w) =>
    destruct (drop_hyphens_suffix w) as [pre Hpre];
    assert (Hw : Forall (slug_char U) w); [|rewrite Hpre in Hw;
      now apply Forall_app in Hw] end.
  eapply Forall_impl; [|apply sub_runs_chars with
    (P := fun c => lowered U c
       /\ (is_word U c || isspace U c || (c =? hyphen)) = true)].
  - intros c [[Hl Hk] Hs]. split; [assumption|].
    destruct Hs as [Hs|Hs]; [now left|right]. split; [|assumption].
    unfold is_sep in Hs. unfold is_word in Hk.
    destruct (isspace U c), (c =? underscore), (c =? hyphen);
      try discriminate.
    now rewrite !orb_false_r in Hk.
  - split; [now apply lowered_hyphen|].
    now rewrite N.eqb_refl, orb_true_r.
  - apply sub_nonword_chars. now apply do_lower_lowered.
Qed.

Lemma slugify_single (U : unicode_db) (t : pystr) :
  contains [hyphen; hyphen] (slugify U t) = false.
Proof.
  unfold slugify, sub_edges, sub_runs. apply sub_trailing_single.
  match goal with |- contains _ (drop_hyphens ?w) = false =>
    destruct (drop_hyphens_suffix w) as [pre Hpre];
    assert (Hw : contains [hyphen; hyphen] w = false);
      [|rewrite Hpre in Hw; now apply contains_app_r in Hw] end.
  apply sub_runs_single.
Qed.

Lemma slugify_start (U : unicode_db) (t : pystr) :
  startswith [hyphen] (slugify U t) = false.
Proof.
  unfold slugify, sub_edges. apply sub_trailing_start, drop_hyphens_start.
Qed.

Lemma slugify_end (U : unicode_db) (t : pystr) :
  ends_hyphen (slugify U t) = false.
Proof. unfold slugify, sub_edges. apply sub_trailing_end. Qed.

(** A string of the shape of a slug is its own slug. *)
Lemma slugify_fixed (U : unicode_db) (s : pystr) :
  db_laws U ->
  Forall (slug_char U) s ->
  contains [hyphen; hyphen] s = false ->
  startswith [hyphen] s = false ->
  ends_hyphen s = false ->
  slugify U s = s.
Proof.
  intros HU Hc Hd Hs He. unfold slugify, lower.
  rewrite do_lower_fixed
    by (eapply Forall_impl; [|exact Hc]; now intros c [H _]).
  assert (Hnw : sub_nonword U s = s).
  { unfold sub_nonword. apply forallb_filter_id. apply forallb_forall.
    intros c Hin. apply (proj1 (Forall_forall _ s) Hc) in Hin.
    destruct Hin as [_ [->|[Ha _]]].
    - now rewrite N.eqb_refl, orb_true_r.
    - unfold is_word. now rewrite Ha. }
  rewrite Hnw. unfold sub_runs.
  rewrite sub_runs_fixed; [| |assumption|discriminate].
  - unfold sub_edges. rewrite drop_hyphens_fixed by assumption.
    apply sub_trailing_fixed; [|assumption|assumption].
    eapply Forall_impl; [|exact Hc]. intros c [_ Hk] ->.
    destruct Hk as [Hk|[_ Hk]]; [discriminate|].
    unfold is_sep in Hk. now rewrite (newline_space U HU) in Hk.
  - eapply Forall_impl; [|exact Hc]. intros c [_ [Hk|[_ Hk]]]; auto.
Qed.

Lemma slugify_idempotent (U : unicode_db) (t : pystr) :
  db_laws U -> slugify U (slugify U t) = slugify U t.
Proof.
  intros HU. apply slugify_fixed; auto using slugify_chars, slugify_single,
    slugify_start, slugify_end.
Qed.

(** Nothing is left of a text without a word character. *)
Lemma slugify_no_word (U : unicode_db) (t : pystr) :
  (forall c, In c (lower U t) -> is_word U c = false) -> slugify U t = [].
Proof.
  intros H. unfold slugify, sub_runs.
  destruct (sub_runs_all_sep U (sub_nonword U (lower U t))) as [_ [E|E]].
  - apply Forall_forall. intros c Hc. apply filter_In in Hc as [Hc Hk].
    rewrite (H c Hc) in Hk. unfold is_sep.
    destruct (isspace U c), (c =? hyphen); try discriminate;
      now rewrite ?orb_true_r.
  - now rewrite E.
  - now rewrite E.
Qed.

Lemma ascii_db_laws : db_laws ascii_db.
Proof.
  split; try reflexivity.
  intros c d Hc. cbn [tolower_full ascii_db]. unfold ascii_upper.
  destruct (65 <=? c) eqn:E1; destruct (c <=? 90) eqn:E2; cbn [andb];
    intros [<-|[]];
    try apply N.leb_le in E1; try apply N.leb_le in E2;
    try apply N.leb_gt in E1; try apply N.leb_gt in E2.
  - replace (65 <=? c + 32) with true by (symmetry; apply N.leb_le; lia).
    replace (c + 32 <=? 90) with false by (symmetry; apply N.leb_gt; lia).
    split; [reflexivity|]. unfold capital_sigma. lia.
  - replace (c <=? 90) with false by (symmetry; apply N.leb_gt; lia).
    rewrite andb_false_r. now split.
  - replace (65 <=? c) with false by (symmetry; apply N.leb_gt; lia).
    now split.
  - replace (65 <=? c) with false by (symmetry; apply N.leb_gt; lia).
    now split.
Qed.

(** *** The tests of the builder, on the ASCII database *)

Example test_format_policy_name_basic :
  format_policy_name ascii_db (str "autopkg-auto-update-%NAME%") (str "GitHub Desktop")
  = str "autopkg-auto-update-github-desktop".
Proof. reflexivity. Qed.

Example test_format_policy_name_multiple_placeholders :
  format_policy_name ascii_db (str "auto-update-%NAME%-policy-%NAME%") (str "Claude")
  = str "auto-update-claude-policy-claude".
Proof. reflexivity. Qed.

Example test_format_policy_name_uppercase :
  format_policy_name ascii_db (str "AUTOPKG-AUTO-UPDATE-%NAME%") (str "Slack")
  = str "AUTOPKG-AUTO-UPDATE-slack".
Proof. reflexivity. Qed.

Example test_build_version_query_single_quotes :
  build_version_query (str "O'Reilly Software") (str "1.0.0")
  = str "SELECT * FROM programs WHERE name = 'O''Reilly Software' AND version != '1.0.0'".
Proof. reflexivity. Qed.

Example test_build_version_query_multiple_quotes :
  build_version_query (str "Bob's 'Great' App") (str "2.0.0")
  = str "SELECT * FROM programs WHERE name = 'Bob''s ''Great'' App' AND version != '2.0.0'".
Proof. reflexivity. Qed.

Example test_build_version_query_empty_values :
  build_version_query [] []
  = str "SELECT * FROM programs WHERE name = '' AND version != ''".
Proof. reflexivity. Qed.

Example slugify_separators :
  slugify ascii_db (str "  --Hello__World!! -- 9 ") = str "hello-world-9".
Proof. reflexivity. Qed.

(** *** The claims about the policy-artifact builder *)

(** C1.  For every title and version, the query is the template with the
    two escaped values in its two quoted places; undoing the quote
    doubling on either value gives the input back; and no quote of an
    escaped value closes the literal around it: read as SQL from just
    after the opening quote, the literal has the input as its value and
    ends at the template's own closing quote (the same holds before any
    text that does not start with a quote). *)
Theorem build_version_query_literals_roundtrip (title version : pystr) :
  let et := escape title in
  let ev := escape version in
  let tail := str " AND version != '" ++ ev ++ str "'" in
  build_version_query title version
    = str "SELECT * FROM programs WHERE name = '" ++ et ++ quote :: tail
  /\ unescape et = title
  /\ unescape ev = version
  /\ read_literal (et ++ quote :: tail) = Some (title, tail)
  /\ read_literal (ev ++ str "'") = Some (version, [])
  /\ (forall x rest, startswith (str "'") rest = false ->
      read_literal (escape x ++ quote :: rest) = Some (x, rest)).
Proof.
  cbv zeta. split; [|split; [|split; [|split; [|split]]]].
  - reflexivity.
  - apply unescape_escape.
  - apply unescape_escape.
  - now apply read_literal_escape.
  - now apply (read_literal_escape version []).
  - apply read_literal_escape.
Qed.

Lemma build_version_query_literals_roundtrip_witness :
  startswith (str "'") (str " --") = false
  /\ read_literal (escape (str "App' OR '1'='1") ++ quote :: str " --")
     = Some (str "App' OR '1'='1", str " --").
Proof.
  split; [reflexivity|].
  apply (build_version_query_literals_roundtrip [] []). reflexivity.
Defined.

(** C5, as the code has it.  The query holds the template's four quotes
    and two quotes for each quote of the title and of the version; each
    escaped value has only runs of quotes of even length. *)
Theorem build_version_query_quote_count (a b : pystr) :
  count quote (build_version_query a b)
    = (4 + 2 * count quote a + 2 * count quote b)%nat
  /\ Forall Nat.Even (quote_runs (escape a))
  /\ Forall Nat.Even (quote_runs (escape b)).
Proof.
  split; [|split].
  - unfold build_version_query. rewrite !count_app, !count_escape.
    change (count quote (str "SELECT * FROM programs WHERE name = '")) with 1%nat.
    change (count quote (str "' AND version != '")) with 2%nat.
    change (count quote (str "'")) with 1%nat. lia.
  - apply quote_runs_escape. now exists O.
  - apply quote_runs_escape. now exists O.
Qed.

(** C5, as stated, fails: in the query of the first test of the builder
    each of the template's four quotes is a run of length one. *)
Lemma build_version_query_odd_run :
  let q := build_version_query (str "GitHub Desktop") (str "3.3.12") in
  quote_runs q = [1; 1; 1; 1]%nat
  /\ ~ (count quote q = 4%nat /\ Forall Nat.Even (quote_runs q)).
Proof.
  cbv zeta. split; [reflexivity|]. intros [_ H].
  change (Forall Nat.Even [1; 1; 1; 1]%nat) in H.
  inversion H as [|? ? [k Hk] _]. lia.
Qed.

(** C6.  Under the facts of the character database, a slug has only
    hyphens and word characters that lower-casing leaves as they are, no
    two hyphens in a row, no hyphen at either end, and is its own slug.
    [slugify] is a function on all strings: the empty string has the empty
    slug, and so has every text without a word character. *)
Theorem slugify_shape_idempotent (U : unicode_db) (t : pystr) :
  db_laws U ->
  let slug := slugify U t in
  Forall (fun c => c = hyphen \/ (is_word U c = true /\ lower U [c] = [c])) slug
  /\ contains (str "--") slug = false
  /\ startswith (str "-") slug = false
  /\ endswith (str "-") slug = false
  /\ slugify U slug = slug
  /\ slugify U [] = []
  /\ ((forall c, In c (lower U t) -> is_word U c = false) -> slug = []).
Proof.
  intros HU. cbv zeta.
  split; [|split; [|split; [|split; [|split; [|split]]]]].
  - eapply Forall_impl; [|now apply slugify_chars].
    intros c [Hl [Hc|[Ha _]]]; [now left|right]. split.
    + unfold is_word. now rewrite Ha.
    + now apply lowered_fixed.
  - apply slugify_single.
  - apply slugify_start.
  - rewrite endswith_hyphen. apply slugify_end.
  - now apply slugify_idempotent.
  - reflexivity.
  - apply slugify_no_word.
Qed.

Lemma slugify_shape_idempotent_witness :
  db_laws ascii_db
  /\ slugify ascii_db (slugify ascii_db (str " GitHub_Desktop -- 3!"))
     = slugify ascii_db (str " GitHub_Desktop -- 3!")
  /\ slugify ascii_db (str "!@#$%^&*()") = [].
Proof.
  split; [exact ascii_db_laws|]. split.
  - apply (slugify_shape_idempotent ascii_db _ ascii_db_laws).
  - apply (slugify_shape_idempotent ascii_db _ ascii_db_laws).
    intros c Hc. cbv in Hc.
    repeat (destruct Hc as [<-|Hc]; [reflexivity|]). destruct Hc.
Defined.

(** C7.  The template is cut at the occurrences of the placeholder that
    the scan from the left finds; the result is the same pieces, unchanged,
    with the slug of the title in the place of each placeholder.  A
    template in which the placeholder does not occur is returned as it
    is. *)
Theorem format_policy_name_replaces_placeholder
    (U : unicode_db) (T S : pystr) :
  let tok := str "%NAME%" in
  (exists ps, pieces_of tok T ps
     /\ T = join tok ps
     /\ format_policy_name U T S = join (slugify U S) ps)
  /\ (contains tok T = false -> format_policy_name U T S = T).
Proof.
  cbv zeta. split.
  - destruct (replace_pieces (str "%NAME%") (slugify U S)) with (s := T)
      as (ps & Hps & Hrep); [discriminate|].
    exists ps. split; [assumption|]. split; [now apply pieces_join|assumption].
  - intros H. unfold format_policy_name.
    apply replace_absent; [discriminate|assumption].
Qed.

Lemma format_policy_name_replaces_placeholder_witness :
  contains (str "%NAME%") (str "static-policy-name") = false
  /\ format_policy_name ascii_db (str "static-policy-name") (str "GitHub Desktop")
     = str "static-policy-name".
Proof.
  split; [reflexivity|].
  apply (format_policy_name_replaces_placeholder ascii_db). reflexivity.
Defined.

(** C10.  When the slug of the title is empty, the result is the template
    with the placeholders taken out: its pieces one after the other.  So
    the template of the recipes and an empty title give a name that ends
    with a hyphen, which no slug does. *)
Theorem format_policy_name_empty_slug (U : unicode_db) (T S : pystr) :
  slugify U S = [] ->
  let tok := str "%NAME%" in
  (exists ps, pieces_of tok T ps
     /\ T = join tok ps
     /\ format_policy_name U T S = concat ps)
  /\ format_policy_name U (str "autopkg-auto-update-%NAME%") []
     = str "autopkg-auto-update-"
  /\ endswith (str "-")
       (format_policy_name U (str "autopkg-auto-update-%NAME%") []) = true
  /\ (forall t, slugify U t
        <> format_policy_name U (str "autopkg-auto-update-%NAME%") []).
Proof.
  intros HS. cbv zeta. split; [|split; [|split]].
  - destruct (replace_pieces (str "%NAME%") []) with (s := T)
      as (ps & Hps & Hrep); [discriminate|].
    exists ps. split; [assumption|]. split; [now apply pieces_join|].
    unfold format_policy_name. now rewrite HS, Hrep, join_nil_concat.
  - reflexivity.
  - reflexivity.
  - intros t Ht.
    pose proof (slugify_end U t) as He. rewrite Ht in He. discriminate.
Qed.

Lemma format_policy_name_empty_slug_witness :
  slugify ascii_db (str "!@#$%^&*()") = []
  /\ exists ps,
       pieces_of (str "%NAME%") (str "autopkg-auto-update-%NAME%") ps
       /\ str "autopkg-auto-update-%NAME%" = join (str "%NAME%") ps
       /\ format_policy_name ascii_db (str "autopkg-auto-update-%NAME%")
            (str "!@#$%^&*()") = concat ps.
Proof.
  split; [reflexivity|].
  apply (format_policy_name_empty_slug ascii_db
           (str "autopkg-auto-update-%NAME%") (str "!@#$%^&*()")).
  reflexivity.
Defined.

End PolicyArtifactFacts.

Module ComplianceFacts.
Import PyStr PyStrFacts Compliance.
Local Open Scope nat_scope.

(** *** The monad of the methods *)

(** A sequence that returns went through both of its parts. *)
Lemma bind_inv {A B} (m : M A) (k : A -> M B) (v v' : validator) (b : B) :
  bind m k v = (v', Ok b) ->
  exists v1 a, m v = (v1, Ok a) /\ k a v1 = (v', Ok b).
Proof.
  unfold bind. destruct (m v) as [v1 [a|e]]; intros H; [|discriminate].
  now exists v1, a.
Qed.

Lemma bind_run_ok {A B} (m : M A) (k : A -> M B) (v : validator) (a : A) :
  snd (m v) = Ok a -> bind m k v = k a (fst (m v)).
Proof. unfold bind. destruct (m v) as [v1 r]. cbn. now intros ->. Qed.

Lemma bind_run_raised {A B} (m : M A) (k : A -> M B) (v : validator) (e : exn) :
  snd (m v) = Raised e -> bind m k v = (fst (m v), Raised e).
Proof. unfold bind. destruct (m v) as [v1 r]. cbn. now intros ->. Qed.

Lemma grown_refl (v : validator) : grown v v [] [].
Proof. unfold grown. now rewrite !app_nil_r. Qed.

Lemma grown_trans (v v1 v2 : validator) (es ws es' ws' : list message) :
  grown v v1 es ws -> grown v1 v2 es' ws' ->
  grown v v2 (es ++ es') (ws ++ ws').
Proof.
  unfold grown. intros (-> & ->) (-> & ->).
  now rewrite !app_assoc.
Qed.

Lemma emits_ret {A} (P : message -> Prop) (a : A) : emits P (ret a).
Proof. intros v. exists [], []. split; [apply grown_refl|now split]. Qed.

Lemma emits_lift {A} (P : message -> Prop) (r : result A) : emits P (lift r).
Proof. intros v. exists [], []. split; [apply grown_refl|now split]. Qed.

Lemma emits_add_error (P : message -> Prop) (m : message) :
  P m -> emits P (add_error m).
Proof.
  intros H v. exists [m], []. split.
  - unfold grown. cbn. now rewrite app_nil_r.
  - split; repeat constructor; assumption.
Qed.

Lemma emits_add_warning (P : message -> Prop) (m : message) :
  P m -> emits P (add_warning m).
Proof.
  intros H v. exists [], [m]. split.
  - unfold grown. cbn. now rewrite app_nil_r.
  - split; repeat constructor; assumption.
Qed.

Lemma emits_incr_recipe_count (P : message -> Prop) : emits P incr_recipe_count.
Proof.
  intros v. exists [], []. split; [|now split].
  unfold grown. cbn. now rewrite !app_nil_r.
Qed.

Lemma emits_incr_direct_count (P : message -> Prop) : emits P incr_direct_count.
Proof.
  intros v. exists [], []. split; [|now split].
  unfold grown. cbn. now rewrite !app_nil_r.
Qed.

Lemma emits_incr_gitops_count (P : message -> Prop) : emits P incr_gitops_count.
Proof.
  intros v. exists [], []. split; [|now split].
  unfold grown. cbn. now rewrite !app_nil_r.
Qed.

Lemma emits_bind {A B} (P : message -> Prop) (m : M A) (k : A -> M B) :
  emits P m -> (forall a, emits P (k a)) -> emits P (bind m k).
Proof.
  intros Hm Hk v. destruct (Hm v) as (es & ws & Hg & He & Hw).
  unfold bind. destruct (m v) as [v1 [a|e]]; cbn [fst] in *.
  - destruct (Hk a v1) as (es' & ws' & Hg' & He' & Hw').
    exists (es ++ es'), (ws ++ ws'). split; [|split].
    + eapply grown_trans; eassumption.
    + apply Forall_app. now split.
    + apply Forall_app. now split.
  - now exists es, ws.
Qed.

Lemma emits_weaken {A} (P Q : message -> Prop) (m : M A) :
  (forall x, P x -> Q x) -> emits P m -> emits Q m.
Proof.
  intros HPQ Hm v. destruct (Hm v) as (es & ws & Hg & He & Hw).
  exists es, ws. split; [assumption|].
  split; eapply Forall_impl; eauto.
Qed.

Lemma emits_bind_value {A B} (P : message -> Prop) (a : A) (k : A -> M B) :
  emits P (k a) -> emits P (bind (lift (Ok a)) k).
Proof. intros H v. exact (H v). Qed.

(** One step through a method built from the pieces above. *)
Ltac emits_step :=
  first
    [ apply emits_ret
    | apply emits_lift
    | apply emits_incr_recipe_count
    | apply emits_incr_direct_count
    | apply emits_incr_gitops_count
    | apply emits_add_error; first [reflexivity | exact I | split; reflexivity]
    | apply emits_add_warning; first [reflexivity | exact I | split; reflexivity]
    | apply emits_bind_value; cbv beta; cbn [truthy negb]
    | apply emits_bind; [|intros ?]
    | match goal with
      | |- emits _ (if ?b then _ else _) => destruct b
      | |- emits _ (match ?x with _ => _ end) => destruct x
      end ].

Lemma keeps_ret {A} (a : A) : keeps_counts (ret a).
Proof. now intros v. Qed.

Lemma keeps_lift {A} (r : result A) : keeps_counts (lift r).
Proof. now intros v. Qed.

Lemma keeps_add_error (m : message) : keeps_counts (add_error m).
Proof. now intros v. Qed.

Lemma keeps_add_warning (m : message) : keeps_counts (add_warning m).
Proof. now intros v. Qed.

Lemma keeps_incr_recipe_count : keeps_counts incr_recipe_count.
Proof. now intros v. Qed.

Lemma keeps_bind {A B} (m : M A) (k : A -> M B) :
  keeps_counts m -> (forall a, keeps_counts (k a)) -> keeps_counts (bind m k).
Proof.
  intros Hm Hk v. destruct (Hm v) as [Hd Hg].
  unfold bind. destruct (m v) as [v1 [a|e]]; cbn [fst] in *.
  - destruct (Hk a v1) as [Hd' Hg']. split; congruence.
  - now split.
Qed.

Ltac keeps_step :=
  first
    [ apply keeps_ret
    | apply keeps_lift
    | apply keeps_incr_recipe_count
    | apply keeps_add_error
    | apply keeps_add_warning
    | apply keeps_bind; [|intros ?]
    | match goal with
      | |- keeps_counts (if ?b then _ else _) => destruct b
      | |- keeps_counts (match ?x with _ => _ end) => destruct x
      end ].

Ltac unfold_checks :=
  unfold validate_filename, validate_vendor_folder, validate_required_fields,
    validate_identifier, validate_single_processor, validate_name,
    validate_self_service, validate_automatic_install,
    validate_gitops_software_dir, validate_gitops_team_yaml_path,
    validate_flag, validate_literal, validate_categories,
    validate_process_arguments, check_argument.

Lemma emits_filename (p : pystr) :
  emits (fun m => rule_of m = RFilename) (validate_filename p).
Proof. unfold validate_filename. repeat emits_step. Qed.

Lemma emits_vendor_folder (p : pystr) :
  emits (fun m => rule_of m = RVendor) (validate_vendor_folder p).
Proof. unfold validate_vendor_folder. repeat emits_step. Qed.

Lemma emits_required_fields (p : pystr) (data : pyval) :
  emits (fun m => rule_of m = RRequired) (validate_required_fields p data).
Proof. unfold validate_required_fields. repeat emits_step. Qed.

Lemma emits_identifier (p : pystr) (data : pyval) (g d : bool) :
  emits (fun m => rule_of m = RIdentifier) (validate_identifier p data g d).
Proof. unfold validate_identifier. repeat emits_step. Qed.

Lemma emits_single_processor (p : pystr) (data : pyval) :
  emits (fun m => rule_of m = RProcessSection \/ rule_of m = RProcessStages)
        (validate_single_processor p data).
Proof.
  unfold validate_single_processor.
  repeat first
    [ apply emits_add_error; cbn; tauto
    | apply emits_add_warning; cbn; tauto
    | emits_step ].
Qed.

Lemma emits_input_checks (p : pystr) (input : pyval) (g : bool) :
  emits (fun m => rule_of m = RInputVars)
        (validate_name p input ;;
         validate_self_service p input ;;
         validate_automatic_install p input ;;
         (if g
          then validate_gitops_software_dir p input ;;
               validate_gitops_team_yaml_path p input
          else ret tt) ;;
         validate_categories p input).
Proof.
  unfold validate_name, validate_self_service, validate_automatic_install,
    validate_gitops_software_dir, validate_gitops_team_yaml_path,
    validate_flag, validate_literal, validate_categories.
  repeat emits_step.
Qed.

Lemma emits_process_arguments (p : pystr) (args : pyval) (g : bool) :
  emits (fun m => rule_of m = RProcessStages)
        (validate_process_arguments p args g).
Proof.
  unfold validate_process_arguments, check_argument. repeat emits_step.
Qed.

Lemma filter_r_total {A} (f : A -> result bool) (g : A -> bool) (l : list A) :
  (forall x, In x l -> f x = Ok (g x)) -> filter_r f l = Ok (filter g l).
Proof.
  induction l as [|x l IH]; intros H; [reflexivity|].
  cbn [filter_r filter]. rewrite (H x) by now left.
  cbn [rbind]. rewrite IH by (intros y Hy; apply H; now right).
  reflexivity.
Qed.

(** *** What the first checks return *)

Lemma filename_ok (p : pystr) (v : validator) :
  snd (validate_filename p v) = Ok tt.
Proof. unfold validate_filename. now destruct (negb _). Qed.

Lemma vendor_folder_ok (p : pystr) (v : validator) :
  snd (validate_vendor_folder p v) = Ok tt.
Proof.
  unfold validate_vendor_folder.
  destruct (_ <? _); [reflexivity|]. now destruct (contains _ _).
Qed.

Lemma required_fields_dict (p : pystr) (d : list (pyval * pyval)) (v : validator) :
  validate_required_fields p (PDict d) v
  = match missing_fields d with
    | [] => (v, Ok tt)
    | _ :: _ => add_error (MissingRequiredFields p (missing_fields d)) v
    end.
Proof.
  unfold validate_required_fields.
  rewrite (filter_r_total _
             (fun field => negb (existsb (is_str field) (map fst d))))
    by reflexivity.
  fold (missing_fields d). unfold bind, lift.
  now destruct (missing_fields d).
Qed.

Lemma required_fields_result (p : pystr) (data : pyval) (v : validator) :
  snd (validate_required_fields p data v)
  = if reaches_count (Loaded data) then Ok tt else Raised TypeError.
Proof.
  destruct data as [| | | s | l | d]; try reflexivity.
  - unfold validate_required_fields.
    rewrite (filter_r_total _ (fun field => negb (contains field s)))
      by reflexivity.
    unfold bind, lift. now destruct (filter _ _).
  - unfold validate_required_fields.
    rewrite (filter_r_total _ (fun field => negb (existsb (is_str field) l)))
      by reflexivity.
    unfold bind, lift. now destruct (filter _ _).
  - rewrite required_fields_dict. now destruct (missing_fields d).
Qed.

Lemma keeps_filename (p : pystr) : keeps_counts (validate_filename p).
Proof. unfold_checks. repeat keeps_step. Qed.

Lemma keeps_vendor_folder (p : pystr) : keeps_counts (validate_vendor_folder p).
Proof. unfold_checks. repeat keeps_step. Qed.

Lemma keeps_required_fields (p : pystr) (data : pyval) :
  keeps_counts (validate_required_fields p data).
Proof. unfold_checks. repeat keeps_step. Qed.

(** *** Paths and tokens *)

Lemma contains_middle (sub pre post : pystr) :
  contains sub (pre ++ sub ++ post) = true.
Proof.
  induction pre as [|c pre IH].
  - cbn [app]. pose proof (startswith_app sub post) as H.
    destruct (sub ++ post); cbn [contains]; now rewrite H.
  - cbn [app]. rewrite contains_cons, IH. apply orb_true_r.
Qed.

Lemma startswith_exact (pre s : pystr) :
  startswith pre s = true -> exists post, s = pre ++ post.
Proof.
  intros H. exists (skipn (length pre) s). now apply startswith_split.
Qed.

Lemma endswith_exact (suf s : pystr) :
  endswith suf s = true -> exists pre, s = pre ++ suf.
Proof.
  unfold endswith. intros H. apply startswith_exact in H as [post H].
  exists (rev post).
  rewrite <- (rev_involutive s), H, rev_app_distr, rev_involutive.
  reflexivity.
Qed.

Lemma split_char_nonempty (sep : char) (s : pystr) : split_char sep s <> [].
Proof.
  destruct s as [|c r]; [discriminate|]. cbn [split_char].
  destruct (N.eqb c sep); [discriminate|].
  destruct (split_char sep r); discriminate.
Qed.

Lemma split_char_join (sep : char) (s : pystr) :
  join [sep] (split_char sep s) = s.
Proof.
  induction s as [|c r IH]; [reflexivity|].
  cbn [split_char]. destruct (N.eqb c sep) eqn:E.
  - apply N.eqb_eq in E; subst c.
    rewrite join_cons by apply split_char_nonempty. now rewrite IH.
  - destruct (split_char sep r) as [|q qs] eqn:Eq;
      [now apply split_char_nonempty in Eq|].
    now rewrite join_cons_cons, IH.
Qed.

Lemma join_last (sep : pystr) (l : list pystr) :
  l <> [] -> exists pre, join sep l = pre ++ last l [].
Proof.
  induction l as [|x l IH]; [congruence|]. intros _.
  destruct l as [|y l'].
  - now exists [].
  - destruct IH as [pre IH]; [discriminate|].
    exists (x ++ sep ++ pre).
    rewrite join_cons by discriminate. rewrite IH.
    change (last (x :: y :: l') []) with (last (y :: l') []).
    now rewrite <- !app_assoc.
Qed.

(** The name of the file is the end of the path. *)
Lemma basename_suffix (p : pystr) : exists pre, p = pre ++ basename p.
Proof.
  destruct (join_last [slash] (split_char slash p)) as [pre H];
    [apply split_char_nonempty|].
  exists pre. now rewrite split_char_join in H.
Qed.

Lemma contains_at (sub pre post s : pystr) :
  s = pre ++ sub ++ post -> contains sub s = true.
Proof. intros ->. apply contains_middle. Qed.

(** The name of a file that ends with a suffix of the guide has the token
    of its mode, and so has the path. *)
Lemma suffix_token (before token after p : pystr) :
  endswith (before ++ token ++ after) (basename p) = true ->
  contains token p = true.
Proof.
  intros H. apply endswith_exact in H as [pre H].
  destruct (basename_suffix p) as [dir Hp].
  apply (contains_at token (dir ++ pre ++ before) after).
  etransitivity; [exact Hp|]. rewrite H. now rewrite <- !app_assoc.
Qed.

(** A path with neither token gets the error of the name of the file. *)
Lemma filename_neither (p : pystr) (v : validator) :
  contains (str ".gitops.") p = false ->
  contains (str ".direct.") p = false ->
  validate_filename p v = add_error (BadFilename p) v.
Proof.
  intros Hg Hd. unfold validate_filename.
  destruct (endswith (str ".fleet.direct.recipe.yaml") (basename p)) eqn:E1.
  - apply (suffix_token (str ".fleet") (str ".direct.") (str "recipe.yaml"))
      in E1. congruence.
  - destruct (endswith (str ".fleet.gitops.recipe.yaml") (basename p)) eqn:E2;
      [|reflexivity].
    apply (suffix_token (str ".fleet") (str ".gitops.") (str "recipe.yaml"))
      in E2. congruence.
Qed.

(** *** The counts of modes *)

Lemma emits_errors_kept {A} (P : message -> Prop) (m : M A) (v : validator)
    (x : message) :
  emits P m -> In x (errors v) -> In x (errors (fst (m v))).
Proof.
  intros Hm Hx. destruct (Hm v) as (es & ws & [He _] & _).
  rewrite He. apply in_or_app. now left.
Qed.

Lemma neither_filename_error (p : pystr) (file : loaded) (v : validator) :
  contains (str ".gitops.") p = false ->
  contains (str ".direct.") p = false ->
  In (BadFilename p) (errors (fst (validate_recipe p file v))).
Proof.
  intros Hg Hd. unfold validate_recipe.
  rewrite (bind_run_ok incr_recipe_count _ v tt eq_refl).
  rewrite (bind_run_ok (validate_filename p) _ _ tt (filename_ok p _)).
  rewrite filename_neither by assumption.
  apply (emits_errors_kept (fun _ => True)).
  - unfold_checks. repeat emits_step.
  - cbn. apply in_or_app. right. now left.
Qed.

Lemma recipe_counts (p : pystr) (file : loaded) (v : validator) :
  let v' := fst (validate_recipe p file v) in
  let is_gitops := contains (str ".gitops.") p in
  let is_direct := contains (str ".direct.") p in
  gitops_count v'
    = gitops_count v + (if reaches_count file && is_gitops then 1 else 0)
  /\ direct_count v'
     = direct_count v
       + (if reaches_count file && is_direct && negb is_gitops then 1 else 0).
Proof.
  cbv zeta. unfold validate_recipe.
  rewrite (bind_run_ok incr_recipe_count _ v tt eq_refl).
  rewrite (bind_run_ok (validate_filename p) _ _ tt (filename_ok p _)).
  rewrite (bind_run_ok (validate_vendor_folder p) _ _ tt (vendor_folder_ok p _)).
  match goal with |- context [validate_vendor_folder p ?w] =>
    destruct (keeps_vendor_folder p w) as [Hd3 Hg3];
    set (v3 := fst (validate_vendor_folder p w)) in *;
    destruct (keeps_filename p (fst (incr_recipe_count v))) as [Hd2 Hg2]
  end.
  assert (Hv3 : direct_count v3 = direct_count v
                /\ gitops_count v3 = gitops_count v).
  { split; [rewrite Hd3, Hd2|rewrite Hg3, Hg2]; reflexivity. }
  clear Hd3 Hg3 Hd2 Hg2. destruct Hv3 as [Hd3 Hg3]. clearbody v3.
  destruct file as [e|e|data].
  - cbn. lia.
  - cbn. lia.
  - pose proof (required_fields_result p data v3) as Hr.
    destruct (keeps_required_fields p data v3) as [Hd4 Hg4].
    destruct (reaches_count (Loaded data)).
    + rewrite (bind_run_ok (validate_required_fields p data) _ _ tt Hr).
      set (v4 := fst (validate_required_fields p data v3)) in *.
      clearbody v4. cbn [andb].
      destruct (contains (str ".gitops.") p);
        [|destruct (contains (str ".direct.") p)].
      * rewrite (bind_run_ok incr_gitops_count _ v4 tt eq_refl).
        match goal with |- context [fst (?m (fst (incr_gitops_count v4)))] =>
          assert (Ht : keeps_counts m) by (unfold_checks; repeat keeps_step);
          destruct (Ht (fst (incr_gitops_count v4))) as [-> ->]
        end.
        rewrite andb_false_r. cbn. lia.
      * rewrite (bind_run_ok incr_direct_count _ v4 tt eq_refl).
        match goal with |- context [fst (?m (fst (incr_direct_count v4)))] =>
          assert (Ht : keeps_counts m) by (unfold_checks; repeat keeps_step);
          destruct (Ht (fst (incr_direct_count v4))) as [-> ->]
        end.
        cbn. lia.
      * rewrite (bind_run_ok (ret tt) _ v4 tt eq_refl).
        match goal with |- context [fst (?m (fst (ret tt v4)))] =>
          assert (Ht : keeps_counts m) by (unfold_checks; repeat keeps_step);
          destruct (Ht (fst (ret tt v4))) as [-> ->]
        end.
        cbn. lia.
    + rewrite (bind_run_raised (validate_required_fields p data) _ _ _ Hr).
      cbn [fst andb]. lia.
Qed.

(** C8, as the code has it.  A file is counted once it has loaded as a
    value in which the check of the required fields can look: as gitops
    when its path has the gitops token, as direct when its path has the
    direct token and not the gitops token; so never in both counts.  A
    file whose path has neither token gets the error of the name of the
    file and is in neither count. *)
Theorem mode_counts (p : pystr) (file : loaded) (v : validator) :
  let v' := fst (validate_recipe p file v) in
  let is_gitops := contains (str ".gitops.") p in
  let is_direct := contains (str ".direct.") p in
  gitops_count v'
    = gitops_count v + (if reaches_count file && is_gitops then 1 else 0)
  /\ direct_count v'
     = direct_count v
       + (if reaches_count file && is_direct && negb is_gitops then 1 else 0)
  /\ gitops_count v' + direct_count v' <= gitops_count v + direct_count v + 1
  /\ (is_gitops = false -> is_direct = false ->
      In (BadFilename p) (errors v')
      /\ gitops_count v' = gitops_count v
      /\ direct_count v' = direct_count v).
Proof.
  cbv zeta. destruct (recipe_counts p file v) as [Hg Hd].
  split; [exact Hg|]. split; [exact Hd|]. split.
  - rewrite Hg, Hd.
    destruct (reaches_count file), (contains (str ".gitops.") p),
      (contains (str ".direct.") p); cbn; lia.
  - intros Eg Ed. split; [now apply neither_filename_error|].
    rewrite Hg, Hd, Eg, Ed, !andb_false_r. cbn. lia.
Qed.

Lemma mode_counts_witness :
  contains (str ".gitops.") (str "Vendor/App.recipe.yaml") = false
  /\ contains (str ".direct.") (str "Vendor/App.recipe.yaml") = false
  /\ In (BadFilename (str "Vendor/App.recipe.yaml"))
        (errors (fst (validate_recipe (str "Vendor/App.recipe.yaml")
                        (Loaded good_recipe) init))).
Proof.
  split; [reflexivity|]. split; [reflexivity|].
  apply (mode_counts (str "Vendor/App.recipe.yaml") (Loaded good_recipe) init);
    reflexivity.
Defined.

(** C8, as stated, fails on a path with both tokens: the name of the file
    is accepted, the path has the direct token, and the file is counted as
    gitops and not as direct; a classification by the two tokens alone
    puts the file in both modes. *)
Lemma mode_counts_both_tokens :
  let v' := fst (validate_recipe both_tokens_path (Loaded good_recipe) init) in
  contains (str ".gitops.") both_tokens_path = true
  /\ contains (str ".direct.") both_tokens_path = true
  /\ ~ In (BadFilename both_tokens_path) (errors v')
  /\ gitops_count v' = 1
  /\ direct_count v' = 0
  /\ ~ (direct_count v' = 1 <-> contains (str ".direct.") both_tokens_path = true)
  /\ (forall is_gitops is_direct : Prop,
        (is_gitops <-> contains (str ".gitops.") both_tokens_path = true) ->
        (is_direct <-> contains (str ".direct.") both_tokens_path = true) ->
        is_gitops /\ is_direct).
Proof.
  cbv zeta. vm_compute.
  split; [reflexivity|]. split; [reflexivity|]. split; [|split; [|split; [|split]]].
  - intros [H|[]]. discriminate.
  - reflexivity.
  - reflexivity.
  - intros [_ H]. specialize (H eq_refl). discriminate.
  - intros g d Hg Hd. split; [apply Hg|apply Hd]; reflexivity.
Qed.

(** *** A top-level key that is not there *)

Lemma run_emits {A} (P : message -> Prop) (m : M A) (v v' : validator) (r : result A) :
  emits P m -> m v = (v', r) ->
  exists es ws, grown v v' es ws /\ Forall P es /\ Forall P ws.
Proof. intros Hm H. specialize (Hm v). now rewrite H in Hm. Qed.

Lemma dict_get_none (d : list (pyval * pyval)) (key : pystr) :
  dict_get d key = None -> existsb (is_str key) (map fst d) = false.
Proof.
  induction d as [|[k x] d IH]; [reflexivity|]. cbn [dict_get map fst existsb].
  destruct (is_str key k); [discriminate|]. exact IH.
Qed.

Lemma missing_fields_absent (d : list (pyval * pyval)) (key : pystr) :
  In key [str "Description"; str "Identifier"; str "Input"; str "Process"] ->
  dict_get d key = None -> In key (missing_fields d).
Proof.
  intros Hk H. unfold missing_fields. apply filter_In. split; [assumption|].
  now rewrite (dict_get_none d key H).
Qed.

Lemma filter_none {A} (f : A -> bool) (l : list A) :
  Forall (fun x => f x = false) l -> filter f l = [].
Proof.
  induction 1 as [|x l Hx Hl IH]; [reflexivity|].
  cbn [filter]. now rewrite Hx.
Qed.

Lemma unrelated_filter (key : pystr) (dep : message -> bool) (l : list message) :
  Forall (unrelated key dep) l ->
  filter (reports_absence key) l = []
  /\ forallb (fun m => negb (dep m)) l = true.
Proof.
  intros H. split.
  - apply filter_none. eapply Forall_impl; [|exact H]. now intros m [Hm _].
  - apply forallb_forall. intros m Hm.
    apply (proj1 (Forall_forall _ l) H) in Hm as [_ Hm]. now rewrite Hm.
Qed.

Lemma streq_refl (s : pystr) : streq s s = true.
Proof. induction s as [|c s IH]; [reflexivity|]. cbn. now rewrite N.eqb_refl. Qed.

Lemma reports_absence_missing (key p : pystr) (missing : list pystr) :
  In key missing ->
  reports_absence key (MissingRequiredFields p missing) = true.
Proof.
  intros H. cbn [reports_absence]. apply existsb_exists.
  exists key. split; [assumption|apply streq_refl].
Qed.

(** The steps of a validation that returned, up to the look at [Input]. *)
Lemma validate_recipe_steps (p : pystr) (d : list (pyval * pyval))
    (v v' : validator) (P : message -> Prop) :
  (forall m, rule_of m = RFilename \/ rule_of m = RVendor
             \/ rule_of m = RIdentifier -> P m) ->
  validate_recipe p (Loaded (PDict d)) v = (v', Ok tt) ->
  exists v3 v4 v6 v7 es3 ws3 es6 ws6,
    grown v v3 es3 ws3 /\ Forall P es3 /\ Forall P ws3
    /\ validate_required_fields p (PDict d) v3 = (v4, Ok tt)
    /\ grown v4 v6 es6 ws6 /\ Forall P es6 /\ Forall P ws6
    /\ validate_single_processor p (PDict d) v6 = (v7, Ok tt)
    /\ bind (lift (get (PDict d) (str "Input") (PDict [])))
         (fun input_section =>
            if negb (truthy input_section)
            then add_error (MissingInput p)
            else
              validate_name p input_section ;;
              validate_self_service p input_section ;;
              validate_automatic_install p input_section ;;
              (if contains (str ".gitops.") p
               then validate_gitops_software_dir p input_section ;;
                    validate_gitops_team_yaml_path p input_section
               else ret tt) ;;
              validate_categories p input_section ;;
              process_list <- lift (get (PDict d) (str "Process") (PList [])) ;;
              if truthy process_list
              then
                n <- lift (py_len process_list) ;;
                if 0 <? n
                then
                  first <- lift (py_first process_list) ;;
                  args <- lift (get first (str "Arguments") (PDict [])) ;;
                  validate_process_arguments p args (contains (str ".gitops.") p)
                else ret tt
              else ret tt) v7 = (v', Ok tt).
Proof.
  intros HP H. unfold validate_recipe in H. cbv zeta in H.
  apply bind_inv in H as (v1 & [] & H1 & H).
  apply bind_inv in H as (v2 & [] & H2 & H).
  apply bind_inv in H as (v3 & [] & H3 & H).
  apply bind_inv in H as (v4 & [] & H4 & H).
  apply bind_inv in H as (v5 & [] & H5 & H).
  apply bind_inv in H as (v6 & [] & H6 & H).
  apply bind_inv in H as (v7 & [] & H7 & H).
  apply (run_emits P) in H1 as (e1 & w1 & G1 & E1 & W1);
    [|apply emits_incr_recipe_count].
  apply (run_emits P) in H2 as (e2 & w2 & G2 & E2 & W2);
    [|eapply emits_weaken; [|apply emits_filename]; intros m Hm; apply HP; tauto].
  apply (run_emits P) in H3 as (e3 & w3 & G3 & E3 & W3);
    [|eapply emits_weaken; [|apply emits_vendor_folder]; intros m Hm; apply HP; tauto].
  apply (run_emits P) in H5 as (e5 & w5 & G5 & E5 & W5);
    [|repeat emits_step].
  apply (run_emits P) in H6 as (e6 & w6 & G6 & E6 & W6);
    [|eapply emits_weaken; [|apply emits_identifier]; intros m Hm; apply HP; tauto].
  exists v3, v4, v6, v7, ((e1 ++ e2) ++ e3), ((w1 ++ w2) ++ w3),
    (e5 ++ e6), (w5 ++ w6).
  repeat match goal with
         | |- _ /\ _ => split
         | |- Forall _ (_ ++ _) => apply Forall_app
         | |- grown _ _ (_ ++ _) (_ ++ _) => eapply grown_trans
         end; eassumption.
Qed.

Lemma unrelated_input (m : message) :
  rule_of m = RFilename \/ rule_of m = RVendor \/ rule_of m = RIdentifier
  \/ rule_of m = RProcessSection \/ rule_of m = RProcessStages ->
  unrelated (str "Input") from_input_check m.
Proof.
  destruct m; cbn [rule_of]; intros H;
    repeat (destruct H as [H|H]; try discriminate); now split.
Qed.

Lemma unrelated_process (m : message) :
  rule_of m = RFilename \/ rule_of m = RVendor \/ rule_of m = RIdentifier
  \/ rule_of m = RInputSection \/ rule_of m = RInputVars ->
  unrelated (str "Process") from_process_check m.
Proof.
  destruct m; cbn [rule_of]; intros H;
    repeat (destruct H as [H|H]; try discriminate); now split.
Qed.

Lemma required_fields_absent (p key : pystr) (d : list (pyval * pyval))
    (v : validator) :
  In key [str "Description"; str "Identifier"; str "Input"; str "Process"] ->
  dict_get d key = None ->
  validate_required_fields p (PDict d) v
  = add_error (MissingRequiredFields p (missing_fields d)) v.
Proof.
  intros Hk H. rewrite required_fields_dict.
  pose proof (missing_fields_absent d key Hk H) as Hin.
  now destruct (missing_fields d).
Qed.

Lemma no_input_reported (p : pystr) (d : list (pyval * pyval)) (v v' : validator) :
  validate_recipe p (Loaded (PDict d)) v = (v', Ok tt) ->
  dict_get d (str "Input") = None ->
  exists es ws,
    grown v v' es ws
    /\ length (filter (reports_absence (str "Input")) es) = 2
    /\ In (MissingRequiredFields p (missing_fields d)) es
    /\ In (str "Input") (missing_fields d)
    /\ In (MissingInput p) es
    /\ forallb (fun m => negb (from_input_check m)) (es ++ ws) = true.
Proof.
  intros H Hin.
  apply (validate_recipe_steps p d v v' (unrelated (str "Input") from_input_check))
    in H as (v3 & v4 & v6 & v7 & es3 & ws3 & es6 & ws6
             & G3 & E3 & W3 & H4 & G6 & E6 & W6 & H7 & H);
    [|intros m Hm; apply unrelated_input; tauto].
  assert (Hk : In (str "Input") (missing_fields d))
    by (apply missing_fields_absent; [cbn; tauto|assumption]).
  rewrite (required_fields_absent p (str "Input")) in H4
    by (cbn; tauto || assumption).
  injection H4 as <-.
  apply (run_emits (unrelated (str "Input") from_input_check)) in H7
    as (es7 & ws7 & G7 & E7 & W7);
    [|eapply emits_weaken; [|apply emits_single_processor];
      intros m Hm; apply unrelated_input; tauto].
  unfold get in H. rewrite Hin in H. injection H as <-.
  destruct G3 as [Ge3 Gw3], G6 as [Ge6 Gw6], G7 as [Ge7 Gw7].
  cbn [errors warnings add_error fst] in *.
  exists (es3 ++ [MissingRequiredFields p (missing_fields d)] ++ es6 ++ es7
          ++ [MissingInput p]), (ws3 ++ ws6 ++ ws7).
  destruct (unrelated_filter _ _ _ E3) as [F3 B3],
    (unrelated_filter _ _ _ E6) as [F6 B6],
    (unrelated_filter _ _ _ E7) as [F7 B7],
    (unrelated_filter _ _ _ W3) as [_ C3],
    (unrelated_filter _ _ _ W6) as [_ C6],
    (unrelated_filter _ _ _ W7) as [_ C7].
  split; [|split; [|split; [|split; [|split]]]].
  - split; cbn [errors warnings].
    + rewrite Ge7, Ge6, Ge3. now rewrite <- !app_assoc.
    + rewrite Gw7, Gw6, Gw3. now rewrite <- !app_assoc.
  - rewrite !filter_app, F3, F6, F7. cbn [filter app].
    rewrite (reports_absence_missing _ _ _ Hk). reflexivity.
  - rewrite !in_app_iff. right. left. now left.
  - assumption.
  - rewrite !in_app_iff. do 4 right. now left.
  - rewrite !forallb_app, B3, B6, B7, C3, C6, C7. reflexivity.
Qed.

Lemma no_process_reported (p : pystr) (d : list (pyval * pyval)) (v v' : validator) :
  validate_recipe p (Loaded (PDict d)) v = (v', Ok tt) ->
  dict_get d (str "Process") = None ->
  exists es ws,
    grown v v' es ws
    /\ length (filter (reports_absence (str "Process")) es) = 2
    /\ In (MissingRequiredFields p (missing_fields d)) es
    /\ In (str "Process") (missing_fields d)
    /\ In (MissingProcess p) es
    /\ forallb (fun m => negb (from_process_check m)) (es ++ ws) = true.
Proof.
  intros H Hpr.
  apply (validate_recipe_steps p d v v' (unrelated (str "Process") from_process_check))
    in H as (v3 & v4 & v6 & v7 & es3 & ws3 & es6 & ws6
             & G3 & E3 & W3 & H4 & G6 & E6 & W6 & H7 & H);
    [|intros m Hm; apply unrelated_process; tauto].
  assert (Hk : In (str "Process") (missing_fields d))
    by (apply missing_fields_absent; [cbn; tauto|assumption]).
  rewrite (required_fields_absent p (str "Process")) in H4
    by (cbn; tauto || assumption).
  injection H4 as <-.
  unfold validate_single_processor, get in H7. rewrite Hpr in H7.
  injection H7 as <-.
  match type of H with ?m _ = _ =>
    assert (Ht : emits (unrelated (str "Process") from_process_check) m)
  end.
  { change (get (PDict d) (str "Process") (PList []))
      with (Ok (match dict_get d (str "Process") with
                | Some x => x
                | None => PList []
                end)).
    rewrite Hpr. unfold_checks. repeat emits_step. }
  apply (run_emits _ _ _ _ _ Ht) in H as (es8 & ws8 & G8 & E8 & W8).
  destruct G3 as [Ge3 Gw3], G6 as [Ge6 Gw6], G8 as [Ge8 Gw8].
  cbn [errors warnings add_error fst] in *.
  exists (es3 ++ [MissingRequiredFields p (missing_fields d)] ++ es6
          ++ [MissingProcess p] ++ es8), (ws3 ++ ws6 ++ ws8).
  destruct (unrelated_filter _ _ _ E3) as [F3 B3],
    (unrelated_filter _ _ _ E6) as [F6 B6],
    (unrelated_filter _ _ _ E8) as [F8 B8],
    (unrelated_filter _ _ _ W3) as [_ C3],
    (unrelated_filter _ _ _ W6) as [_ C6],
    (unrelated_filter _ _ _ W8) as [_ C8].
  split; [|split; [|split; [|split; [|split]]]].
  - split; cbn [errors warnings].
    + rewrite Ge8, Ge6, Ge3. now rewrite <- !app_assoc.
    + rewrite Gw8, Gw6, Gw3. now rewrite <- !app_assoc.
  - rewrite !filter_app, F3, F6, F8. cbn [filter app].
    rewrite (reports_absence_missing _ _ _ Hk). reflexivity.
  - rewrite !in_app_iff. right. left. now left.
  - assumption.
  - rewrite !in_app_iff. do 3 right. left. now left.
  - rewrite !forallb_app, B3, B6, B8, C3, C6, C8. reflexivity.
Qed.

(** *** The claims about the validator *)

(** C4.  The exit code of the report is 0 exactly when the list of errors
    is empty, whatever the warnings, and 1 otherwise; every warning is a
    line of the report, under a header with their number; a run that
    returns gives the code of the report of the state it ends in. *)
Theorem report_results_exit_code (v : validator) :
  let out := fst (report_results v) in
  let code := snd (report_results v) in
  (code = 0 <-> length (errors v) = 0)
  /\ (code = 1 <-> 0 < length (errors v))
  /\ (forall w, In w (warnings v) -> In (LBullet w) out)
  /\ (0 < length (warnings v) -> In (LWarningsHeader (length (warnings v))) out)
  /\ (forall found v0 v' r,
        validate_all_recipes found v0 = (v', Ok r) ->
        r = report_results v' /\ (snd r = 0 <-> errors v' = [])).
Proof.
  cbv zeta. unfold report_results.
  split; [|split; [|split; [|split]]].
  - destruct (errors v), (warnings v); cbn; split; intros; lia || discriminate.
  - destruct (errors v), (warnings v); cbn; split; intros; lia || discriminate.
  - intros w Hw.
    destruct (errors v) as [|e es], (warnings v) as [|w0 ws];
      try (now destruct Hw); cbn [fst]; rewrite !in_app_iff;
      right; right; left; right; now apply in_map.
  - intros Hw.
    destruct (errors v) as [|e es], (warnings v) as [|w0 ws];
      try (cbn in Hw; lia); cbn [fst]; rewrite !in_app_iff;
      right; right; left; now left.
  - intros found v0 v' r H. unfold validate_all_recipes in H.
    apply bind_inv in H as (v1 & [] & _ & H). injection H as -> <-.
    split; [reflexivity|].
    unfold report_results.
    destruct (errors v'), (warnings v'); cbn; split; intros;
      congruence || discriminate.
Qed.

Lemma report_results_exit_code_witness :
  let run := validate_all_recipes [(direct_path, Loaded two_stage_recipe)] init in
  errors (fst run) = []
  /\ warnings (fst run) = [ProcessCount direct_path 2]
  /\ In (LBullet (ProcessCount direct_path 2)) (fst (report_results (fst run)))
  /\ exists r, snd run = Ok r /\ snd r = 0.
Proof.
  cbv zeta. split; [reflexivity|]. split; [reflexivity|]. split.
  - apply (report_results_exit_code _). now left.
  - eexists. split; [reflexivity|].
    apply (proj2 (proj2 (proj2 (proj2 (report_results_exit_code init))))
             [(direct_path, Loaded two_stage_recipe)] init _ _ eq_refl).
    reflexivity.
Defined.

(** C9.  In the gitops recipe with the categories Browsers and Gaming the
    one error of the whole validation is the error of the categories, and
    it lists Gaming alone.  Without the key, or with an empty list, the
    check adds nothing.  With a list of scalars, it adds nothing when all
    are supported, and otherwise one error that lists, in their order, the
    entries that are not. *)
Theorem validate_categories_invalid_listed (p : pystr) (v : validator) :
  validate_recipe gitops_path (Loaded gaming_recipe) init
    = (mk_validator [InvalidCategories gitops_path [PStr (str "Gaming")]] [] 1 0 1,
       Ok tt)
  /\ validate_categories p
       (PDict [(PStr (str "CATEGORIES"), browsers_gaming)]) v
     = add_error (InvalidCategories p [PStr (str "Gaming")]) v
  /\ (forall d, dict_get d (str "CATEGORIES") = None ->
        validate_categories p (PDict d) v = (v, Ok tt))
  /\ (forall d, dict_get d (str "CATEGORIES") = Some (PList []) ->
        validate_categories p (PDict d) v = (v, Ok tt))
  /\ (forall d cats,
        dict_get d (str "CATEGORIES") = Some (PList cats) ->
        forallb hashable cats = true ->
        validate_categories p (PDict d) v
        = match filter unsupported cats with
          | [] => (v, Ok tt)
          | invalid => add_error (InvalidCategories p invalid) v
          end).
Proof.
  split; [|split; [|split; [|split]]].
  - vm_compute. reflexivity.
  - reflexivity.
  - intros d H. unfold validate_categories, get. now rewrite H.
  - intros d H. unfold validate_categories, get. now rewrite H.
  - intros d cats H Hh. unfold validate_categories, get. rewrite H.
    destruct cats as [|c cats]; [reflexivity|].
    unfold bind at 1. cbn [lift truthy negb py_iter].
    unfold bind at 1. cbn [lift].
    unfold bind. cbn [lift].
    rewrite (filter_r_total _ unsupported).
    + now destruct (filter unsupported (c :: cats)).
    + intros x Hx.
      rewrite (proj1 (forallb_forall hashable (c :: cats)) Hh x Hx).
      reflexivity.
Qed.

Lemma validate_categories_invalid_listed_witness :
  errors (fst (validate_categories gitops_path
                 (PDict [(PStr (str "NAME"), PStr (str "App"));
                         (PStr (str "CATEGORIES"),
                          PList [PStr (str "Games"); PStr (str "Productivity");
                                 PInt 7])])
                 init))
  = [InvalidCategories gitops_path [PStr (str "Games"); PInt 7]].
Proof.
  rewrite (proj2 (proj2 (proj2 (proj2
            (validate_categories_invalid_listed gitops_path init))))
            _ [PStr (str "Games"); PStr (str "Productivity"); PInt 7]);
    reflexivity.
Defined.

(** C3, as the code has it.  In a validation of a mapping that returns,
    a key [Input] that is not there is reported by two errors, the one of
    the required fields, which lists it, and the one of the missing
    [Input] section, and no entry comes from a check of the variables of
    [Input]; a key [Process] that is not there is reported by the error
    of the required fields and the one of the missing [Process] section,
    and no entry comes from a check of the stages. *)
Theorem absent_section_reported (p : pystr) (d : list (pyval * pyval))
    (v v' : validator) :
  validate_recipe p (Loaded (PDict d)) v = (v', Ok tt) ->
  (dict_get d (str "Input") = None ->
   exists es ws,
     grown v v' es ws
     /\ length (filter (reports_absence (str "Input")) es) = 2
     /\ In (MissingRequiredFields p (missing_fields d)) es
     /\ In (str "Input") (missing_fields d)
     /\ In (MissingInput p) es
     /\ forallb (fun m => negb (from_input_check m)) (es ++ ws) = true)
  /\ (dict_get d (str "Process") = None ->
      exists es ws,
        grown v v' es ws
        /\ length (filter (reports_absence (str "Process")) es) = 2
        /\ In (MissingRequiredFields p (missing_fields d)) es
        /\ In (str "Process") (missing_fields d)
        /\ In (MissingProcess p) es
        /\ forallb (fun m => negb (from_process_check m)) (es ++ ws) = true).
Proof.
  intros H. split; intros Hk.
  - now apply no_input_reported.
  - now apply no_process_reported.
Qed.

Lemma absent_section_reported_witness :
  exists es ws,
    grown init (fst (validate_recipe gitops_path (Loaded no_process_recipe) init))
      es ws
    /\ length (filter (reports_absence (str "Process")) es) = 2
    /\ In (MissingProcess gitops_path) es
    /\ forallb (fun m => negb (from_process_check m)) (es ++ ws) = true.
Proof.
  destruct (absent_section_reported gitops_path
              (match no_process_recipe with PDict d => d | _ => [] end)
              init
              (fst (validate_recipe gitops_path (Loaded no_process_recipe) init))
              eq_refl) as [_ H].
  destruct (H eq_refl) as (es & ws & G & N & _ & _ & I & F).
  now exists es, ws.
Defined.

(** C3, as stated, fails: a recipe without [Input] has two errors that
    report it, and a recipe without [Process] likewise. *)
Lemma absent_input_two_entries :
  let es := errors (fst (validate_recipe direct_path (Loaded no_input_recipe) init)) in
  let es' := errors (fst (validate_recipe gitops_path (Loaded no_process_recipe) init)) in
  es = [MissingRequiredFields direct_path [str "Input"]; MissingInput direct_path]
  /\ length (filter (reports_absence (str "Input")) es) <> 1
  /\ es' = [MissingRequiredFields gitops_path [str "Process"];
            MissingProcess gitops_path]
  /\ length (filter (reports_absence (str "Process")) es') <> 1.
Proof. cbv zeta. vm_compute. repeat split; discriminate. Qed.

(** C2, at inputs on which the code raises.  A recipe whose only stage
    is a string goes through [validate_single_processor], which looks only
    at the stages that are mappings, and then raises in [validate_recipe],
    which calls [get] on the first stage without that test.  An empty
    file, which loads as null, raises in [validate_required_fields]; a
    document that is a sequence raises in [validate_identifier]; an
    [Input] that is a string raises in [validate_name]. *)
Theorem validate_recipe_raises :
  snd (validate_single_processor direct_path string_stage_recipe init) = Ok tt
  /\ snd (validate_recipe direct_path (Loaded string_stage_recipe) init)
     = Raised AttributeError
  /\ snd (validate_recipe direct_path (Loaded PNone) init) = Raised TypeError
  /\ snd (validate_recipe direct_path (Loaded (PList [PStr (str "Process")])) init)
     = Raised AttributeError
  /\ snd (validate_recipe direct_path (Loaded string_input_recipe) init)
     = Raised AttributeError.
Proof. repeat split; vm_compute; reflexivity. Qed.

End ComplianceFacts.

(** * Further properties of the builder *)
Module PolicyArtifactMore.
Import PyStr PyStrFacts PolicyArtifact PolicyArtifactFacts.

Lemma escape_app (a b : pystr) : escape (a ++ b) = escape a ++ escape b.
Proof.
  induction a as [|c a IH]; [reflexivity|].
  cbn [app]. rewrite !escape_cons, IH. now destruct (c =? quote).
Qed.

Lemma escape_length (a : pystr) :
  length (escape a) = (length a + count quote a)%nat.
Proof.
  induction a as [|c a IH]; [reflexivity|].
  rewrite escape_cons. cbn [count length].
  destruct (c =? quote); cbn [length]; rewrite IH; lia.
Qed.

Lemma escape_quote_free (a : pystr) : count quote a = 0%nat -> escape a = a.
Proof.
  induction a as [|c a IH]; [reflexivity|].
  rewrite escape_cons. cbn [count].
  destruct (c =? quote); [discriminate|]. intros H. now rewrite IH.
Qed.

(** X1.  The query determines the title and the version: two calls that
    give the same query were given the same title and the same version. *)
Theorem build_version_query_injective (t v t' v' : pystr) :
  build_version_query t v = build_version_query t' v' -> t = t' /\ v = v'.
Proof.
  unfold build_version_query. intros H. apply app_inv_head in H.
  apply (f_equal read_literal) in H.
  change (str "' AND version != '") with (quote :: str " AND version != '") in H.
  cbn [app] in H.
  rewrite !read_literal_escape in H by reflexivity.
  injection H as Ht H. split; [assumption|].
  apply (f_equal read_literal) in H.
  change (str "'") with [quote] in H.
  rewrite !(read_literal_escape _ []) in H by reflexivity.
  now injection H.
Qed.

Lemma build_version_query_injective_witness :
  str "O'Reilly" = str "O'Reilly" /\ str "1.0" = str "1.0".
Proof.
  apply (build_version_query_injective (str "O'Reilly") (str "1.0")).
  reflexivity.
Defined.

(** X2.  Escaping goes character by character: the escape of a
    concatenation is the concatenation of the escapes, it adds one
    character for each quote, and it leaves a text without a quote as it
    is, so that such a title and version stand in the query verbatim. *)
Theorem escape_by_character (a b : pystr) :
  escape (a ++ b) = escape a ++ escape b
  /\ length (escape a) = (length a + count quote a)%nat
  /\ (count quote a = 0%nat -> count quote b = 0%nat ->
      build_version_query a b
      = str "SELECT * FROM programs WHERE name = '" ++ a
          ++ str "' AND version != '" ++ b ++ str "'").
Proof.
  split; [apply escape_app|]. split; [apply escape_length|].
  intros Ha Hb. unfold build_version_query.
  now rewrite (escape_quote_free a Ha), (escape_quote_free b Hb).
Qed.

Lemma escape_by_character_witness :
  build_version_query (str "Test App") (str "1.0.0-beta+123")
  = str "SELECT * FROM programs WHERE name = '" ++ str "Test App"
      ++ str "' AND version != '" ++ str "1.0.0-beta+123" ++ str "'".
Proof.
  apply (escape_by_character (str "Test App") (str "1.0.0-beta+123"));
    reflexivity.
Defined.

Lemma lower_idempotent (U : unicode_db) (t : pystr) :
  db_laws U -> lower U (lower U t) = lower U t.
Proof.
  intros HU. unfold lower at 1. apply do_lower_fixed.
  now apply do_lower_lowered.
Qed.

(** X3.  The slug does not depend on the case of the text: lower-casing
    the text first, or the title given to [format_policy_name], changes
    nothing. *)
Theorem slugify_case_insensitive (U : unicode_db) (T t : pystr) :
  db_laws U ->
  slugify U (lower U t) = slugify U t
  /\ format_policy_name U T (lower U t) = format_policy_name U T t.
Proof.
  intros HU.
  assert (H : slugify U (lower U t) = slugify U t)
    by (unfold slugify; now rewrite lower_idempotent).
  split; [exact H|]. unfold format_policy_name. now rewrite H.
Qed.

Lemma slugify_case_insensitive_witness :
  db_laws ascii_db
  /\ slugify ascii_db (str "github desktop") = slugify ascii_db (str "GitHub Desktop").
Proof.
  split; [exact ascii_db_laws|].
  apply (slugify_case_insensitive ascii_db [] (str "GitHub Desktop") ascii_db_laws).
Defined.

(** X4.  The slugs are the strings of the shape of a slug: a string is
    the slug of some text exactly when it has the shape, and exactly then
    it is its own slug. *)
Theorem slugify_image (U : unicode_db) (s : pystr) :
  db_laws U ->
  ((exists t, slugify U t = s) <-> slug_shaped U s)
  /\ (slugify U s = s <-> slug_shaped U s).
Proof.
  intros HU.
  assert (Hshape : forall t, slug_shaped U (slugify U t)).
  { intros t. repeat split.
    - now apply slugify_chars.
    - apply slugify_single.
    - apply slugify_start.
    - apply slugify_end. }
  assert (Hfix : slug_shaped U s -> slugify U s = s).
  { intros (Hc & Hd & Hs & He). now apply slugify_fixed. }
  split; split.
  - intros [t <-]. apply Hshape.
  - intros H. exists s. now apply Hfix.
  - intros <-. apply Hshape.
  - exact Hfix.
Qed.

Lemma slugify_image_witness :
  db_laws ascii_db /\ slug_shaped ascii_db (str "github-desktop").
Proof.
  split; [exact ascii_db_laws|].
  apply (slugify_image ascii_db (str "github-desktop") ascii_db_laws).
  reflexivity.
Defined.

Lemma startswith_within (pre a z : pystr) :
  (length pre <= length a)%nat ->
  startswith pre (a ++ z) = true -> startswith pre a = true.
Proof.
  revert a; induction pre as [|p pre IH]; intros [|c a] Hl H;
    try reflexivity; cbn [length] in Hl; try lia.
  cbn [app] in H. rewrite startswith_cons in *.
  apply andb_true_iff in H as [-> H]. apply (IH a); [lia|assumption].
Qed.

(** The first occurrence of [old], when none starts before it. *)
Lemma replace_first (old new p rest : pystr) :
  old <> [] ->
  contains old (p ++ removelast old) = false ->
  replace old new (p ++ old ++ rest) = p ++ new ++ replace old new rest.
Proof.
  intros Hold. induction p as [|c p IH]; intros H.
  - cbn [app]. rewrite replace_hit by (assumption || apply startswith_app).
    now rewrite skipn_app, skipn_all, Nat.sub_diag.
  - cbn [app] in *. rewrite contains_cons in H.
    apply orb_false_iff in H as [H1 H2].
    rewrite replace_miss; [now rewrite IH|assumption|].
    destruct (startswith old (c :: p ++ old ++ rest)) eqn:E; [|reflexivity].
    rewrite (app_removelast_last 0 Hold) in E at 2.
    rewrite <- app_assoc, app_assoc in E.
    change (c :: (p ++ removelast old) ++ [last old 0] ++ rest)
      with ((c :: p ++ removelast old) ++ [last old 0] ++ rest) in E.
    apply startswith_within in E; [congruence|].
    pose proof (f_equal (@length char) (app_removelast_last 0 Hold)) as Hl.
    rewrite length_app in Hl. cbn [length] in *. rewrite length_app.
    unfold pystr, char in *. lia.
Qed.

(** X5.  A template with one placeholder, as the recipes have it: the
    text before and the text after the placeholder stay, and the slug of
    the title stands between them. *)
Theorem format_policy_name_one_placeholder (U : unicode_db) (pre post S : pystr) :
  contains (str "%NAME%") (pre ++ str "%NAME") = false ->
  contains (str "%NAME%") post = false ->
  format_policy_name U (pre ++ str "%NAME%" ++ post) S
  = pre ++ slugify U S ++ post.
Proof.
  intros Hpre Hpost. unfold format_policy_name.
  rewrite replace_first; [|discriminate|exact Hpre].
  now rewrite replace_absent by (discriminate || assumption).
Qed.

Lemma format_policy_name_one_placeholder_witness :
  format_policy_name ascii_db (str "policy-" ++ str "%NAME%" ++ str "-v2")
    (str "1Password 8")
  = str "policy-" ++ slugify ascii_db (str "1Password 8") ++ str "-v2".
Proof.
  apply (format_policy_name_one_placeholder ascii_db); reflexivity.
Defined.

End PolicyArtifactMore.

(** * Further properties of the validator *)
Module ComplianceMore.
Import PyStr PyStrFacts Compliance ComplianceFacts.
Local Open Scope nat_scope.

Lemma keeps_ret' {A B} (f : validator -> B) (a : A) : keeps f (ret a).
Proof. now intros v. Qed.

Lemma keeps_lift' {A B} (f : validator -> B) (r : result A) : keeps f (lift r).
Proof. now intros v. Qed.

Lemma keeps_bind' {A B C} (f : validator -> C) (m : M A) (k : A -> M B) :
  keeps f m -> (forall a, keeps f (k a)) -> keeps f (bind m k).
Proof.
  intros Hm Hk v. specialize (Hm v).
  unfold bind. destruct (m v) as [v1 [a|e]]; cbn [fst] in *.
  - now rewrite (Hk a v1).
  - assumption.
Qed.

(** One step through a method for a component that the primitive steps
    met on the way do not touch. *)
Ltac keeps_field_step :=
  first
    [ apply keeps_ret'
    | apply keeps_lift'
    | apply keeps_bind'; [|intros ?]
    | (intros ?; reflexivity)
    | match goal with
      | |- keeps _ (if ?b then _ else _) => destruct b
      | |- keeps _ (match ?x with _ => _ end) => destruct x
      end ].

Lemma recipe_count_step (p : pystr) (file : loaded) (v : validator) :
  recipe_count (fst (validate_recipe p file v)) = S (recipe_count v).
Proof.
  unfold validate_recipe.
  rewrite (bind_run_ok incr_recipe_count _ v tt eq_refl).
  match goal with |- recipe_count (fst (?m ?w)) = _ =>
    assert (H : keeps recipe_count m)
      by (unfold_checks; repeat keeps_field_step);
    rewrite (H w)
  end.
  reflexivity.
Qed.

Lemma mode_count_step (p : pystr) (file : loaded) (v : validator) :
  direct_count (fst (validate_recipe p file v))
  + gitops_count (fst (validate_recipe p file v))
  <= S (direct_count v + gitops_count v).
Proof.
  destruct (recipe_counts p file v) as [Hg Hd]. rewrite Hg, Hd.
  destruct (reaches_count file), (contains (str ".gitops.") p),
    (contains (str ".direct.") p); cbn; lia.
Qed.

Lemma validate_each_counts (files : list (pystr * loaded)) (v : validator) :
  direct_count v + gitops_count v <= recipe_count v ->
  let v' := fst (validate_each files v) in
  direct_count v' + gitops_count v' <= recipe_count v'
  /\ recipe_count v' <= recipe_count v + length files
  /\ (forall u, snd (validate_each files v) = Ok u ->
      recipe_count v' = recipe_count v + length files).
Proof.
  revert v; induction files as [|[p file] files IH]; intros v Hv; cbv zeta.
  - cbn. repeat split; lia.
  - cbn [validate_each length].
    pose proof (recipe_count_step p file v) as Hr.
    pose proof (mode_count_step p file v) as Hm.
    unfold bind. destruct (validate_recipe p file v) as [v1 [[]|e]];
      cbn [fst snd] in *.
    + destruct (IH v1) as (H1 & H2 & H3); [lia|].
      split; [exact H1|]. split; [lia|].
      intros u Hu. rewrite (H3 u Hu). lia.
    + split; [lia|]. split; [lia|]. discriminate.
Qed.

Lemma insert_sorted_length (f : pystr * loaded) (l : list (pystr * loaded)) :
  length (insert_sorted f l) = S (length l).
Proof.
  induction l as [|g l IH]; [reflexivity|].
  cbn [insert_sorted]. destruct (str_ltb (fst f) (fst g)); cbn [length]; lia.
Qed.

Lemma sorted_length (l : list (pystr * loaded)) : length (sorted l) = length l.
Proof.
  induction l as [|f l IH]; [reflexivity|].
  cbn [sorted fold_right]. fold (sorted l).
  now rewrite insert_sorted_length, IH.
Qed.

Lemma insert_sorted_in (x f : pystr * loaded) (l : list (pystr * loaded)) :
  In x (insert_sorted f l) <-> x = f \/ In x l.
Proof.
  induction l as [|g l IH]; [cbn; intuition|].
  cbn [insert_sorted]. destruct (str_ltb (fst f) (fst g)); cbn [In] in *;
    intuition.
Qed.

Lemma sorted_in (x : pystr * loaded) (l : list (pystr * loaded)) :
  In x (sorted l) <-> In x l.
Proof.
  induction l as [|f l IH]; [reflexivity|].
  cbn [sorted fold_right]. fold (sorted l).
  rewrite insert_sorted_in, IH. cbn [In]. intuition.
Qed.

(** X10.  Every call of [validate_recipe] counts its file, also when it
    raises, and puts it in at most one of the two counts of modes.  So,
    in a run from a new validator, the direct and gitops counts together
    never exceed the count of recipes, which is at most the number of
    files kept and, when the run gets to its report, is that number. *)
Theorem run_counts (found : list (pystr * loaded)) :
  let v' := fst (validate_all_recipes found init) in
  (forall p file v,
     recipe_count (fst (validate_recipe p file v)) = S (recipe_count v))
  /\ direct_count v' + gitops_count v' <= recipe_count v'
  /\ recipe_count v' <= length (kept found)
  /\ (forall r, snd (validate_all_recipes found init) = Ok r ->
      recipe_count v' = length (kept found)).
Proof.
  cbv zeta. split; [apply recipe_count_step|].
  unfold validate_all_recipes. fold (kept found).
  destruct (validate_each_counts (sorted (kept found)) init) as (H1 & H2 & H3);
    [cbn; lia|].
  rewrite sorted_length in *. cbn [recipe_count init Nat.add] in *.
  unfold bind.
  destruct (validate_each (sorted (kept found)) init) as [v1 [[]|e]];
    cbn [fst snd] in *.
  - split; [exact H1|]. split; [exact H2|]. intros r _. now apply (H3 tt).
  - split; [exact H1|]. split; [exact H2|]. discriminate.
Qed.

Lemma run_counts_witness :
  let found := [(direct_path, Loaded two_stage_recipe);
                (str "FleetImporter/x.recipe.yaml", Loaded PNone);
                (gitops_path, YamlError (str "bad indentation"))] in
  recipe_count (fst (validate_all_recipes found init)) = 2.
Proof.
  cbv zeta.
  exact (proj2 (proj2 (proj2 (run_counts
           [(direct_path, Loaded two_stage_recipe);
            (str "FleetImporter/x.recipe.yaml", Loaded PNone);
            (gitops_path, YamlError (str "bad indentation"))]))) _ eq_refl).
Defined.

Lemma emits_validate_recipe (P : message -> Prop) (p : pystr) (file : loaded) :
  (forall m, path_of m = p -> P m) -> emits P (validate_recipe p file).
Proof.
  intros HP. apply (emits_weaken (fun m => path_of m = p)); [exact HP|].
  unfold validate_recipe. unfold_checks. repeat emits_step.
Qed.

Lemma emits_validate_each (P : message -> Prop) (files : list (pystr * loaded)) :
  (forall m, In (path_of m) (map fst files) -> P m) ->
  emits P (validate_each files).
Proof.
  induction files as [|[p file] files IH]; intros HP; cbn [validate_each].
  - apply emits_ret.
  - apply emits_bind.
    + apply emits_validate_recipe. intros m <-. apply HP. now left.
    + intros _. apply IH. intros m Hm. apply HP. now right.
Qed.

(** X11.  A run only adds entries to the two lists, after those it
    found there, and each entry it adds starts with the path of a file
    that was found and whose path does not have [FleetImporter] in it: a
    file left out of the run gets no entry. *)
Theorem run_entries (found : list (pystr * loaded)) (v : validator) :
  exists es ws,
    grown v (fst (validate_all_recipes found v)) es ws
    /\ forall m, In m (es ++ ws) ->
         In (path_of m) (map fst found)
         /\ contains (str "FleetImporter") (path_of m) = false.
Proof.
  assert (H : emits (fun m => In (path_of m) (map fst found)
                     /\ contains (str "FleetImporter") (path_of m) = false)
                (validate_all_recipes found)).
  { unfold validate_all_recipes. fold (kept found). apply emits_bind.
    - apply emits_validate_each. intros m Hm.
      apply in_map_iff in Hm as ([q file] & Hq & Hin). cbn [fst] in Hq.
      apply (proj1 (sorted_in _ _)) in Hin. unfold kept in Hin.
      apply filter_In in Hin as [Hin Hk]. cbn [fst] in Hk. subst q. split.
      + apply in_map_iff. now exists (path_of m, file).
      + now destruct (contains (str "FleetImporter") (path_of m)).
    - intros _ w. exists [], []. split; [apply grown_refl|now split]. }
  destruct (H v) as (es & ws & G & He & Hw). exists es, ws.
  split; [exact G|]. intros m Hm. apply in_app_iff in Hm as [Hm|Hm].
  - now apply (proj1 (Forall_forall _ es) He).
  - now apply (proj1 (Forall_forall _ ws) Hw).
Qed.

Lemma run_entries_witness :
  In (path_of (YamlSyntaxError (str "Vendor/App.recipe.yaml") (str "tab")))
     (map fst [(str "Vendor/App.recipe.yaml", YamlError (str "tab"))])
  /\ contains (str "FleetImporter")
       (path_of (YamlSyntaxError (str "Vendor/App.recipe.yaml") (str "tab")))
     = false.
Proof.
  destruct (run_entries [(str "Vendor/App.recipe.yaml", YamlError (str "tab"))]
              init) as (es & ws & [Ge Gw] & Hm).
  apply Hm. apply in_or_app. left.
  change (errors init ++ es) with es in Ge. rewrite <- Ge.
  right. left. reflexivity.
Defined.

Lemma filename_effect (p : pystr) (w : validator) :
  exists fe,
    errors (fst (validate_filename p w)) = errors w ++ fe
    /\ warnings (fst (validate_filename p w)) = warnings w
    /\ length fe <= 1
    /\ Forall (fun m => rule_of m = RFilename \/ rule_of m = RVendor) fe.
Proof.
  unfold validate_filename. destruct (negb _).
  - exists [BadFilename p]. cbn.
    split; [reflexivity|]. split; [reflexivity|]. split; [lia|].
    constructor; [now left|constructor].
  - exists []. cbn. rewrite app_nil_r.
    split; [reflexivity|]. split; [reflexivity|]. split; [lia|constructor].
Qed.

Lemma vendor_folder_effect (p : pystr) (w : validator) :
  exists fe,
    errors (fst (validate_vendor_folder p w)) = errors w ++ fe
    /\ warnings (fst (validate_vendor_folder p w)) = warnings w
    /\ length fe <= 1
    /\ Forall (fun m => rule_of m = RFilename \/ rule_of m = RVendor) fe.
Proof.
  unfold validate_vendor_folder. destruct (_ <? _); [|destruct (contains _ _)].
  - exists [VendorAtRoot p]. cbn.
    split; [reflexivity|]. split; [reflexivity|]. split; [lia|].
    constructor; [now right|constructor].
  - eexists [VendorSpaces p _]. cbn.
    split; [reflexivity|]. split; [reflexivity|]. split; [lia|].
    constructor; [now right|constructor].
  - exists []. cbn. rewrite app_nil_r.
    split; [reflexivity|]. split; [reflexivity|]. split; [lia|constructor].
Qed.

Lemma load_failure_run (p : pystr) (file : loaded) (v : validator) :
  load_error p file <> [] ->
  let v' := fst (validate_recipe p file v) in
  snd (validate_recipe p file v) = Ok tt
  /\ (exists pre, errors v' = errors v ++ pre ++ load_error p file
        /\ length pre <= 2
        /\ Forall (fun m => rule_of m = RFilename \/ rule_of m = RVendor) pre)
  /\ warnings v' = warnings v
  /\ direct_count v' = direct_count v
  /\ gitops_count v' = gitops_count v.
Proof.
  intros Hl. cbv zeta.
  assert (Hr : reaches_count file = false)
    by (destruct file; [reflexivity|reflexivity|now cbn in Hl]).
  destruct (recipe_counts p file v) as [Hg Hd]. rewrite Hr in Hg, Hd.
  cbn [andb] in Hg, Hd. rewrite Nat.add_0_r in Hg, Hd.
  split; [|split; [|split; [|split; [exact Hd|exact Hg]]]];
    unfold validate_recipe;
    rewrite (bind_run_ok incr_recipe_count _ v tt eq_refl);
    rewrite (bind_run_ok (validate_filename p) _ _ tt (filename_ok p _));
    rewrite (bind_run_ok (validate_vendor_folder p) _ _ tt
               (vendor_folder_ok p _));
    destruct (filename_effect p (fst (incr_recipe_count v)))
      as (fe & Hfe & Hfw & Hfl & Hff);
    destruct (vendor_folder_effect p
                (fst (validate_filename p (fst (incr_recipe_count v)))))
      as (ve & Hve & Hvw & Hvl & Hvf).
  - destruct file; [reflexivity|reflexivity|now cbn in Hl].
  - exists (fe ++ ve). split; [|split].
    + destruct file as [e|e|data]; [| |now cbn in Hl]; cbn [errors add_error fst];
        rewrite Hve, Hfe; cbn [errors incr_recipe_count fst load_error];
        now rewrite <- !app_assoc.
    + rewrite length_app. lia.
    + apply Forall_app. now split.
  - destruct file as [e|e|data]; [| |now cbn in Hl]; cbn [warnings add_error fst];
      now rewrite Hvw, Hfw.
Qed.

(** X12.  A file that does not load: the validation returns, the error of
    the load is the last entry, before it come only the errors of the
    name of the file and of the folder, of which there are at most two,
    no warning is added and the file is in neither count of modes. *)
Theorem load_failure (p : pystr) (file : loaded) (v : validator) :
  load_error p file <> [] ->
  let v' := fst (validate_recipe p file v) in
  snd (validate_recipe p file v) = Ok tt
  /\ (exists pre, errors v' = errors v ++ pre ++ load_error p file
        /\ length pre <= 2
        /\ Forall (fun m => rule_of m = RFilename \/ rule_of m = RVendor) pre)
  /\ warnings v' = warnings v
  /\ direct_count v' = direct_count v
  /\ gitops_count v' = gitops_count v.
Proof. apply load_failure_run. Qed.

Lemma load_failure_witness :
  errors (fst (validate_recipe (str "App.recipe.yaml") (YamlError (str "tab")) init))
  = [BadFilename (str "App.recipe.yaml"); VendorAtRoot (str "App.recipe.yaml");
     YamlSyntaxError (str "App.recipe.yaml") (str "tab")].
Proof.
  destruct (load_failure (str "App.recipe.yaml") (YamlError (str "tab")) init)
    as (_ & (pre & H & _) & _); [discriminate|].
  reflexivity.
Defined.

(** *** Warnings *)

Lemma single_processor_warnings (p : pystr) (data : pyval) (v : validator) :
  warnings (fst (validate_single_processor p data v))
  = warnings v ++ stage_warning p data.
Proof.
  unfold validate_single_processor, stage_warning.
  destruct (get data (str "Process") (PList [])) as [pl|e];
    [|cbn; now rewrite app_nil_r].
  rewrite (bind_run_ok (lift (Ok pl)) _ v pl eq_refl). cbn [lift fst].
  destruct (truthy pl); cbn [negb]; [|cbn; now rewrite app_nil_r].
  destruct (py_len pl) as [n|e]; [|cbn; now rewrite app_nil_r].
  rewrite (bind_run_ok (lift (Ok n)) _ v n eq_refl). cbn [lift fst].
  destruct (n =? 1); cbn [negb].
  - rewrite (bind_run_ok (ret tt) _ v tt eq_refl). cbn [ret fst].
    match goal with |- warnings (fst (?m v)) = _ =>
      assert (H : keeps warnings m) by (repeat keeps_field_step);
      rewrite (H v)
    end.
    now rewrite app_nil_r.
  - rewrite (bind_run_ok (add_warning _) _ v tt eq_refl).
    match goal with |- warnings (fst (?m ?w)) = _ =>
      assert (H : keeps warnings m) by (repeat keeps_field_step);
      rewrite (H w)
    end.
    reflexivity.
Qed.

Lemma bind_field {A B C} (f : validator -> C) (m : M A) (k : A -> M B)
    (v : validator) :
  f (fst (bind m k v))
  = match snd (m v) with
    | Ok a => f (fst (k a (fst (m v))))
    | Raised _ => f (fst (m v))
    end.
Proof. unfold bind. now destruct (m v) as [v1 [a|e]]. Qed.

Lemma recipe_warnings_loaded (p : pystr) (data : pyval) (v : validator) :
  (warnings (fst (validate_recipe p (Loaded data) v)) = warnings v
   /\ forall u, snd (validate_recipe p (Loaded data) v) <> Ok u)
  \/ warnings (fst (validate_recipe p (Loaded data) v))
     = warnings v ++ stage_warning p data.
Proof.
  unfold validate_recipe.
  rewrite (bind_run_ok incr_recipe_count _ v tt eq_refl).
  rewrite (bind_run_ok (validate_filename p) _ _ tt (filename_ok p _)).
  rewrite (bind_run_ok (validate_vendor_folder p) _ _ tt (vendor_folder_ok p _)).
  set (v3 := fst (validate_vendor_folder p _)).
  assert (H3 : warnings v3 = warnings v).
  { subst v3.
    assert (Hv : keeps warnings (validate_vendor_folder p))
      by (unfold_checks; repeat keeps_field_step).
    assert (Hf : keeps warnings (validate_filename p))
      by (unfold_checks; repeat keeps_field_step).
    now rewrite Hv, Hf. }
  clearbody v3.
  assert (Hq : keeps warnings (validate_required_fields p data))
    by (unfold_checks; repeat keeps_field_step).
  destruct (snd (validate_required_fields p data v3)) as [[]|e] eqn:E4.
  2:{ left. rewrite (bind_run_raised _ _ _ _ E4). cbn [fst snd].
      split; [now rewrite Hq|discriminate]. }
  rewrite (bind_run_ok _ _ _ _ E4).
  set (v4 := fst (validate_required_fields p data v3)).
  assert (H4 : warnings v4 = warnings v) by (subst v4; now rewrite Hq).
  clearbody v4. cbv zeta.
  match goal with |- context [bind (if ?g then _ else _) _ v4] =>
    assert (E5 : exists v5, (if g then incr_gitops_count
                             else if contains (str ".direct.") p
                                  then incr_direct_count else ret tt) v4
                            = (v5, Ok tt) /\ warnings v5 = warnings v4)
      by (destruct g; [|destruct (contains (str ".direct.") p)];
          eexists; split; reflexivity)
  end.
  destruct E5 as (v5 & E5 & H5).
  rewrite (bind_run_ok _ _ v4 tt (f_equal snd E5)).
  rewrite E5. cbn [fst]. rewrite H4 in H5. clear E5 H4 v4 E4 Hq H3 v3.
  match goal with |- context [validate_identifier p data ?g ?d] =>
    assert (Hi : keeps warnings (validate_identifier p data g d))
      by (unfold_checks; repeat keeps_field_step);
    destruct (snd (validate_identifier p data g d v5)) as [[]|e] eqn:E6
  end.
  2:{ left. rewrite (bind_run_raised _ _ _ _ E6). cbn [fst snd].
      split; [now rewrite Hi|discriminate]. }
  rewrite (bind_run_ok _ _ _ _ E6).
  match goal with |- context [fst (validate_identifier p data ?g ?d v5)] =>
    set (v6 := fst (validate_identifier p data g d v5));
    assert (H6 : warnings v6 = warnings v) by (subst v6; now rewrite Hi)
  end.
  clearbody v6. right.
  rewrite bind_field.
  pose proof (single_processor_warnings p data v6) as Hs. rewrite H6 in Hs.
  destruct (snd (validate_single_processor p data v6)) as [[]|e]; [|exact Hs].
  match goal with |- warnings (fst (?m ?w)) = _ =>
    assert (Ht : keeps warnings m) by (unfold_checks; repeat keeps_field_step);
    rewrite (Ht w)
  end.
  exact Hs.
Qed.

(** X13.  One validation adds at most one warning, the one of the number
    of stages; whatever else is wrong is an error.  When the validation
    of a document returns, the warning is there exactly when [Process]
    has a length other than one; for a list of stages, when it has two
    stages or more. *)
Theorem recipe_warnings (p : pystr) (file : loaded) (v : validator) :
  let v' := fst (validate_recipe p file v) in
  (exists ws, warnings v' = warnings v ++ ws
     /\ (ws = [] \/ exists n, n <> 1 /\ ws = [ProcessCount p n]))
  /\ (forall data, file = Loaded data ->
      snd (validate_recipe p file v) = Ok tt ->
      warnings v' = warnings v ++ stage_warning p data)
  /\ (forall d stages, dict_get d (str "Process") = Some (PList stages) ->
      stage_warning p (PDict d)
      = if length stages <=? 1 then []
        else [ProcessCount p (length stages)]).
Proof.
  cbv zeta.
  assert (Hshape : forall data, stage_warning p data = []
            \/ exists n, n <> 1 /\ stage_warning p data = [ProcessCount p n]).
  { intros data. unfold stage_warning.
    destruct (get data _ _) as [pl|e]; [|now left].
    destruct (truthy pl); [|now left].
    destruct (py_len pl) as [n|e]; [|now left].
    destruct (n =? 1) eqn:E; [now left|right].
    exists n. split; [now apply Nat.eqb_neq|reflexivity]. }
  split; [|split].
  - destruct file as [e|e|data].
    + exists []. split; [|now left]. rewrite app_nil_r.
      apply (proj2 (proj2 (load_failure_run p (YamlError e) v ltac:(discriminate)))).
    + exists []. split; [|now left]. rewrite app_nil_r.
      apply (proj2 (proj2 (load_failure_run p (OtherError e) v ltac:(discriminate)))).
    + destruct (recipe_warnings_loaded p data v) as [[H _]|H].
      * exists []. split; [now rewrite app_nil_r|now left].
      * exists (stage_warning p data). split; [exact H|apply Hshape].
  - intros data -> Hok.
    destruct (recipe_warnings_loaded p data v) as [[_ H]|H]; [|exact H].
    now destruct (H tt).
  - intros d stages Hd. unfold stage_warning, get. rewrite Hd.
    destruct stages as [|s1 [|s2 stages]]; reflexivity.
Qed.

Lemma recipe_warnings_witness :
  warnings (fst (validate_recipe direct_path (Loaded two_stage_recipe) init))
  = [] ++ stage_warning direct_path two_stage_recipe.
Proof.
  apply (recipe_warnings direct_path (Loaded two_stage_recipe) init);
    reflexivity.
Defined.

(** *** The name of the file and the folder *)

(** X14.  A file whose name passes the rule of the name and that gets to
    the count is in exactly one of the two counts of modes; with the
    gitops suffix it is in the gitops count.  With the direct suffix it
    is in the direct count only when the gitops token is nowhere in its
    path: under a folder that has the gitops token it is counted as
    gitops. *)
Theorem accepted_filename_counted (p : pystr) (file : loaded) (v : validator) :
  reaches_count file = true ->
  let v' := fst (validate_recipe p file v) in
  (endswith gitops_suffix (basename p) = true ->
   gitops_count v' = S (gitops_count v) /\ direct_count v' = direct_count v)
  /\ (endswith direct_suffix (basename p) = true ->
      if contains (str ".gitops.") p
      then gitops_count v' = S (gitops_count v) /\ direct_count v' = direct_count v
      else gitops_count v' = gitops_count v /\ direct_count v' = S (direct_count v)).
Proof.
  intros Hr. cbv zeta. destruct (recipe_counts p file v) as [Hg Hd].
  set (v' := fst (validate_recipe p file v)) in *. clearbody v'.
  rewrite Hr in Hg, Hd. cbn [andb] in Hg, Hd. split; intros H.
  - apply (suffix_token (str ".fleet") (str ".gitops.") (str "recipe.yaml"))
      in H.
    rewrite H in Hg, Hd. rewrite andb_false_r in Hd. lia.
  - apply (suffix_token (str ".fleet") (str ".direct.") (str "recipe.yaml"))
      in H.
    rewrite H in Hd.
    destruct (contains (str ".gitops.") p) eqn:E; cbn in Hg, Hd; lia.
Qed.

Lemma accepted_filename_counted_witness :
  let p := str "Tools.gitops.team/App.fleet.direct.recipe.yaml" in
  gitops_count (fst (validate_recipe p (Loaded good_recipe) init)) = 1
  /\ direct_count (fst (validate_recipe p (Loaded good_recipe) init)) = 0.
Proof.
  cbv zeta.
  apply (proj2 (accepted_filename_counted
                  (str "Tools.gitops.team/App.fleet.direct.recipe.yaml")
                  (Loaded good_recipe) init eq_refl)).
  reflexivity.
Defined.

Lemma split_char_app (sep : char) (a b : pystr) :
  split_char sep (a ++ sep :: b) = split_char sep a ++ split_char sep b.
Proof.
  induction a as [|c a IH]; cbn [app split_char].
  - now rewrite N.eqb_refl.
  - destruct (N.eqb c sep); rewrite IH; [reflexivity|].
    destruct (split_char sep a) eqn:E; [now apply split_char_nonempty in E|].
    reflexivity.
Qed.

Lemma split_char_none (sep : char) (s : pystr) :
  count sep s = 0 -> split_char sep s = [s].
Proof.
  induction s as [|c s IH]; [reflexivity|]. cbn [count split_char].
  destruct (N.eqb c sep); [discriminate|]. intros H. now rewrite IH.
Qed.

Lemma nth_last {A} (l : list A) (d : A) :
  l <> [] -> nth (length l - 1) l d = last l d.
Proof.
  induction l as [|x l IH]; [congruence|]. intros _.
  destruct l as [|y l]; [reflexivity|].
  cbn [length last] in *. rewrite <- IH by discriminate.
  cbn. now rewrite Nat.sub_0_r.
Qed.

(** X15.  The folder of the vendor is the last part of the directory of
    the path.  A path without a separator gets the error of the recipe at
    the root; otherwise the only possible error is that of a space in
    that last part: the parts above it, the name of the file and an empty
    last part (the path of a file just under the root directory) give
    none. *)
Theorem vendor_folder_rule (p : pystr) (v : validator) :
  (count slash p = 0 ->
   validate_vendor_folder p v = add_error (VendorAtRoot p) v)
  /\ (forall dir file, p = dir ++ slash :: file -> count slash file = 0 ->
      validate_vendor_folder p v
      = if contains [space] (basename dir)
        then add_error (VendorSpaces p (basename dir)) v
        else (v, Ok tt)).
Proof.
  split.
  - intros H. unfold validate_vendor_folder.
    now rewrite (split_char_none slash p H).
  - intros dir file -> Hf. unfold validate_vendor_folder.
    rewrite split_char_app, (split_char_none slash file Hf).
    rewrite length_app. cbn [length].
    pose proof (split_char_nonempty slash dir) as Hn.
    assert (Hl : (length (split_char slash dir) + 1 <? 2) = false).
    { apply Nat.ltb_ge. destruct (split_char slash dir); [congruence|].
      cbn [length]. lia. }
    rewrite Hl.
    replace (length (split_char slash dir) + 1 - 2)
      with (length (split_char slash dir) - 1) by lia.
    rewrite app_nth1.
    + rewrite (@nth_last pystr (split_char slash dir) (@nil char) Hn).
      fold (basename dir).
      now destruct (contains [space] (basename dir)).
    + destruct (split_char slash dir); [congruence|]. cbn [length]. lia.
Qed.

Lemma vendor_folder_rule_witness :
  validate_vendor_folder (str "Rogue Amoeba/Loopback.fleet.direct.recipe.yaml") init
  = add_error (VendorSpaces (str "Rogue Amoeba/Loopback.fleet.direct.recipe.yaml")
                 (str "Rogue Amoeba")) init.
Proof.
  exact (proj2 (vendor_folder_rule
                  (str "Rogue Amoeba/Loopback.fleet.direct.recipe.yaml") init)
           (str "Rogue Amoeba") (str "Loopback.fleet.direct.recipe.yaml")
           eq_refl eq_refl).
Defined.

(** *** Documents on which the validation returns *)

Lemma returns_bind {A B} (m : M A) (k : A -> M B) :
  returns m -> (forall a, returns (k a)) -> returns (bind m k).
Proof.
  intros Hm Hk v. destruct (Hm v) as [a Ha].
  rewrite (bind_run_ok m k v a Ha). apply Hk.
Qed.

Lemma returns_bind_value {A B} (a : A) (k : A -> M B) :
  returns (k a) -> returns (bind (lift (Ok a)) k).
Proof. intros H v. exact (H v). Qed.

Ltac returns_step :=
  first
    [ apply returns_bind_value; cbv beta
    | apply returns_bind; [|intros ?]
    | (intros ?; eexists; reflexivity)
    | match goal with
      | |- returns (if ?b then _ else _) => destruct b
      | |- returns (match ?x with _ => _ end) => destruct x
      end ].

Lemma returns_required_fields (p : pystr) (d : list (pyval * pyval)) :
  returns (validate_required_fields p (PDict d)).
Proof. intros v. exists tt. apply (required_fields_result p (PDict d) v). Qed.

Lemma returns_identifier (p : pystr) (d : list (pyval * pyval)) (g dr : bool) :
  identifier_ok (or_default (dict_get d (str "Identifier")) (PStr [])) = true ->
  returns (validate_identifier p (PDict d) g dr).
Proof.
  unfold validate_identifier, get, or_default, identifier_ok.
  destruct (dict_get d (str "Identifier")) as [x|]; intros H;
    apply returns_bind_value; cbv beta.
  - destruct x as [|b|z|s|l|l]; cbn [truthy negb orb] in *;
      try (destruct b); try (destruct (Z.eqb z 0)); try (destruct l);
      cbn [negb orb] in *; try discriminate; repeat returns_step.
  - cbn. repeat returns_step.
Qed.

Lemma has_fleet_importer_ok (items : list pyval) :
  forallb stage_ok items = true -> exists b, has_fleet_importer items = Ok b.
Proof.
  induction items as [|item items IH]; intros H; [now exists false|].
  cbn [forallb] in H. apply andb_true_iff in H as [Hs Hi].
  destruct (IH Hi) as [b Hb]. cbn [has_fleet_importer].
  destruct item as [| | | | |sd]; try (now exists b).
  cbn [stage_ok get rbind] in *. unfold or_default in Hs.
  destruct (dict_get sd (str "Processor")) as [[| | |ps|pl|pd]|];
    try discriminate; cbn [py_in rbind];
    match goal with |- context [if ?c then _ else _] => destruct c end;
    eauto.
Qed.

Lemma returns_single_processor (p : pystr) (d : list (pyval * pyval)) :
  process_ok (or_default (dict_get d (str "Process")) (PList [])) = true ->
  returns (validate_single_processor p (PDict d)).
Proof.
  unfold validate_single_processor, get.
  fold (or_default (dict_get d (str "Process")) (PList [])).
  generalize (or_default (dict_get d (str "Process")) (PList [])).
  intros pl H. apply returns_bind_value; cbv beta.
  unfold process_ok in H. destruct (truthy pl); cbn [negb orb] in *.
  - destruct pl as [| | | |[|first rest]|]; try discriminate.
    apply andb_true_iff in H as [Hs _].
    destruct (has_fleet_importer_ok _ Hs) as [b Hb].
    cbn [py_len py_iter]. apply returns_bind_value; cbv beta.
    apply returns_bind; [repeat returns_step|intros _].
    apply returns_bind_value; cbv beta. rewrite Hb.
    apply returns_bind_value; cbv beta. repeat returns_step.
  - repeat returns_step.
Qed.

Lemma returns_categories (p : pystr) (inp : list (pyval * pyval)) :
  categories_ok (or_default (dict_get inp (str "CATEGORIES")) (PList [])) = true ->
  returns (validate_categories p (PDict inp)).
Proof.
  unfold validate_categories, get.
  fold (or_default (dict_get inp (str "CATEGORIES")) (PList [])).
  generalize (or_default (dict_get inp (str "CATEGORIES")) (PList [])).
  intros c H. apply returns_bind_value; cbv beta.
  unfold categories_ok in H. destruct (truthy c); cbn [negb orb] in *.
  - destruct c as [| | | |cats|]; try discriminate.
    cbn [py_iter]. apply returns_bind_value; cbv beta.
    rewrite (filter_r_total _ unsupported).
    + apply returns_bind_value; cbv beta. repeat returns_step.
    + intros x Hx. now rewrite (proj1 (forallb_forall hashable cats) H x Hx).
  - repeat returns_step.
Qed.

Lemma returns_process_arguments (p : pystr) (a : list (pyval * pyval)) (g : bool) :
  returns (validate_process_arguments p (PDict a) g).
Proof.
  unfold validate_process_arguments, check_argument, get. repeat returns_step.
Qed.

(** X16.  On a document that is a mapping whose [Identifier], [Process]
    and [Input], when there, have the types of the guide, the validation
    returns: whatever is missing or wrong in it is reported, not raised. *)
Theorem well_typed_returns (p : pystr) (data : pyval) (v : validator) :
  well_typed data = true ->
  snd (validate_recipe p (Loaded data) v) = Ok tt.
Proof.
  intros H. destruct data as [| | | | |d]; try discriminate.
  cbn [well_typed] in H.
  apply andb_true_iff in H as [H Hin]. apply andb_true_iff in H as [Hid Hpr].
  assert (Hr : returns (validate_recipe p (Loaded (PDict d)))).
  2:{ destruct (Hr v) as [[] Hv]. exact Hv. }
  unfold validate_recipe.
  apply returns_bind; [repeat returns_step|intros _].
  apply returns_bind; [unfold_checks; repeat returns_step|intros _].
  apply returns_bind; [unfold_checks; repeat returns_step|intros _].
  apply returns_bind; [apply returns_required_fields|intros _].
  cbv zeta.
  apply returns_bind; [repeat returns_step|intros _].
  apply returns_bind; [now apply returns_identifier|intros _].
  apply returns_bind; [now apply returns_single_processor|intros _].
  unfold get at 1.
  fold (or_default (dict_get d (str "Input")) (PDict [])).
  revert Hin. generalize (or_default (dict_get d (str "Input")) (PDict [])).
  intros x Hin. apply returns_bind_value; cbv beta.
  unfold input_ok in Hin. destruct (truthy x); cbn [negb orb] in *;
    [|repeat returns_step].
  destruct x as [| | | | |inp]; try discriminate.
  apply returns_bind;
    [unfold validate_name, get; repeat returns_step|intros _].
  apply returns_bind;
    [unfold validate_self_service, validate_flag, get; repeat returns_step
    |intros _].
  apply returns_bind;
    [unfold validate_automatic_install, validate_flag, get; repeat returns_step
    |intros _].
  apply returns_bind;
    [unfold validate_gitops_software_dir, validate_gitops_team_yaml_path,
       validate_literal, get; repeat returns_step
    |intros _].
  apply returns_bind; [now apply returns_categories|intros _].
  unfold get at 1.
  fold (or_default (dict_get d (str "Process")) (PList [])).
  revert Hpr. generalize (or_default (dict_get d (str "Process")) (PList [])).
  intros pl Hpr. apply returns_bind_value; cbv beta.
  unfold process_ok in Hpr. destruct (truthy pl); cbn [negb orb] in *;
    [|repeat returns_step].
  destruct pl as [| | | |[|first rest]|]; try discriminate.
  apply andb_true_iff in Hpr as [_ Ha].
  cbn [py_len length]. apply returns_bind_value; cbv beta.
  cbn [Nat.ltb Nat.leb py_first]. apply returns_bind_value; cbv beta.
  unfold arguments_ok, or_default in Ha.
  destruct first as [| | | | |sd]; try discriminate. unfold get at 1.
  apply returns_bind_value; cbv beta.
  destruct (dict_get sd (str "Arguments")) as [[| | | | |a]|];
    try discriminate; apply returns_process_arguments.
Qed.

Lemma well_typed_returns_witness :
  snd (validate_recipe direct_path (Loaded no_input_recipe) init) = Ok tt.
Proof. apply well_typed_returns. reflexivity. Defined.

(** *** A validation that adds no error *)

Lemma clean_step {A B} (m : M A) (k : A -> M B) (v v' : validator) (b : B) :
  emits (fun _ => True) m -> (forall a, emits (fun _ => True) (k a)) ->
  bind m k v = (v', Ok b) -> errors v' = errors v ->
  exists v1 a, m v = (v1, Ok a) /\ errors v1 = errors v
               /\ k a v1 = (v', Ok b) /\ errors v' = errors v1.
Proof.
  intros Hm Hk H E. apply bind_inv in H as (v1 & a & H1 & H2).
  destruct (Hm v) as (es & ws & [He _] & _). rewrite H1 in He. cbn [fst] in He.
  destruct (Hk a v1) as (es' & ws' & [He' _] & _). rewrite H2 in He'.
  cbn [fst] in He'. exists v1, a.
  assert (Hnil : es ++ es' = []).
  { apply (app_inv_head (errors v)). rewrite app_nil_r, app_assoc, <- He, <- He'.
    exact E. }
  apply app_eq_nil in Hnil as [-> ->]. rewrite app_nil_r in *.
  repeat split; assumption.
Qed.

Ltac emits_any :=
  lazymatch goal with
  | |- forall _, _ => intros ?
  | _ => idtac
  end;
  unfold_checks; repeat emits_step.

Lemma add_error_not_clean (m : message) (v v1 : validator) (r : result unit) :
  add_error m v = (v1, r) -> errors v1 = errors v -> False.
Proof.
  intros H E. injection H as <- _. cbn in E.
  apply (f_equal (@length message)) in E. rewrite length_app in E.
  cbn in E. lia.
Qed.

Lemma streq_eq (a b : pystr) : streq a b = true -> a = b.
Proof.
  revert b; induction a as [|x a IH]; intros [|y b] H; try discriminate;
    [reflexivity|].
  cbn in H. apply andb_true_iff in H as [Hx Hs].
  apply N.eqb_eq in Hx. subst. f_equal. now apply IH.
Qed.

Lemma is_str_eq (s : pystr) (x : pyval) : is_str s x = true -> x = PStr s.
Proof.
  destruct x; try discriminate. cbn. intros H. now rewrite (streq_eq _ _ H).
Qed.

Lemma dict_get_some (d : list (pyval * pyval)) (key : pystr) :
  existsb (is_str key) (map fst d) = true -> dict_get d key <> None.
Proof.
  induction d as [|[k x] d IH]; [discriminate|]. cbn [dict_get map fst existsb].
  destruct (is_str key k); [discriminate|]. exact IH.
Qed.

Lemma filename_clean (p : pystr) (v v1 : validator) (r : result unit) :
  validate_filename p v = (v1, r) -> errors v1 = errors v ->
  endswith direct_suffix (basename p) || endswith gitops_suffix (basename p) = true.
Proof.
  unfold validate_filename. fold direct_suffix gitops_suffix.
  destruct (_ || _); [reflexivity|]. cbn [negb]. intros H E.
  destruct (add_error_not_clean _ _ _ _ H E).
Qed.

Lemma vendor_folder_clean (p : pystr) (v v1 : validator) (r : result unit) :
  validate_vendor_folder p v = (v1, r) -> errors v1 = errors v ->
  count slash p <> 0.
Proof.
  intros H E Hc. unfold validate_vendor_folder in H.
  rewrite (split_char_none slash p Hc) in H. cbn [length Nat.ltb Nat.leb] in H.
  destruct (add_error_not_clean _ _ _ _ H E).
Qed.

Lemma required_fields_clean (p : pystr) (d : list (pyval * pyval))
    (v v1 : validator) (r : result unit) :
  validate_required_fields p (PDict d) v = (v1, r) -> errors v1 = errors v ->
  forall key, In key required_keys -> dict_get d key <> None.
Proof.
  rewrite required_fields_dict. intros H E key Hk.
  destruct (missing_fields d) as [|m ms] eqn:Em;
    [|destruct (add_error_not_clean _ _ _ _ H E)].
  apply dict_get_some.
  destruct (existsb (is_str key) (map fst d)) eqn:Ee; [reflexivity|].
  assert (Hin : In key (missing_fields d)).
  { unfold missing_fields. apply filter_In. split; [exact Hk|]. now rewrite Ee. }
  rewrite Em in Hin. destruct Hin.
Qed.

Lemma identifier_clean (p : pystr) (d : list (pyval * pyval)) (g dr : bool)
    (v v1 : validator) :
  validate_identifier p (PDict d) g dr v = (v1, Ok tt) -> errors v1 = errors v ->
  exists ident,
    dict_get d (str "Identifier") = Some (PStr ident)
    /\ startswith (str "com.github.fleet.") ident = true
    /\ (dr = true -> contains (str ".direct.") ident = true)
    /\ (dr = false -> g = true -> contains (str ".gitops.") ident = true).
Proof.
  unfold validate_identifier, get. intros H E.
  rewrite (bind_run_ok (lift (Ok _)) _ v _ eq_refl) in H. cbn [lift fst] in H.
  destruct (dict_get d (str "Identifier")) as [x|];
    [|destruct (add_error_not_clean _ _ _ _ H E)].
  destruct (truthy x); cbn [negb] in H;
    [|destruct (add_error_not_clean _ _ _ _ H E)].
  destruct x as [| | |ident| |]; try discriminate.
  exists ident. split; [reflexivity|].
  destruct (startswith (str "com.github.fleet.") ident); cbn [negb] in H;
    [|destruct (add_error_not_clean _ _ _ _ H E)].
  split; [reflexivity|].
  destruct dr, g, (contains (str ".direct.") ident),
    (contains (str ".gitops.") ident); cbn [andb negb] in H;
    try (destruct (add_error_not_clean _ _ _ _ H E));
    split; intros; congruence.
Qed.

Lemma has_fleet_importer_found (items : list pyval) :
  has_fleet_importer items = Ok true ->
  exists sd, In (PDict sd) items
    /\ py_in (str "FleetImporter")
         (or_default (dict_get sd (str "Processor")) (PStr [])) = Ok true.
Proof.
  induction items as [|item items IH]; [discriminate|].
  cbn [has_fleet_importer]. intros H.
  assert (Hrest : has_fleet_importer items = Ok true ->
                  exists sd, In (PDict sd) (item :: items)
                    /\ py_in (str "FleetImporter")
                         (or_default (dict_get sd (str "Processor")) (PStr []))
                       = Ok true).
  { intros Hi. destruct (IH Hi) as (sd & Hin & Hp). exists sd.
    split; [now right|exact Hp]. }
  destruct item as [| | | | |sd]; try (now apply Hrest).
  cbn [get rbind] in H.
  fold (or_default (dict_get sd (str "Processor")) (PStr [])) in H.
  destruct (py_in (str "FleetImporter")
              (or_default (dict_get sd (str "Processor")) (PStr [])))
    as [[|]|e] eqn:Ep; cbn [rbind] in H; try discriminate.
  - exists sd. split; [now left|exact Ep].
  - now apply Hrest.
Qed.

Lemma single_processor_clean (p : pystr) (d : list (pyval * pyval))
    (v v1 : validator) :
  validate_single_processor p (PDict d) v = (v1, Ok tt) ->
  errors v1 = errors v ->
  exists process_list items sd,
    dict_get d (str "Process") = Some process_list
    /\ truthy process_list = true
    /\ py_iter process_list = Ok items
    /\ In (PDict sd) items
    /\ py_in (str "FleetImporter")
         (or_default (dict_get sd (str "Processor")) (PStr [])) = Ok true.
Proof.
  unfold validate_single_processor, get. intros H E.
  rewrite (bind_run_ok (lift (Ok _)) _ v _ eq_refl) in H. cbn [lift fst] in H.
  destruct (dict_get d (str "Process")) as [pl|];
    [|destruct (add_error_not_clean _ _ _ _ H E)].
  destruct (truthy pl) eqn:Et; cbn [negb] in H;
    [|destruct (add_error_not_clean _ _ _ _ H E)].
  apply clean_step in H as (v2 & n & H2 & E2 & H & E3); [|emits_any..|exact E].
  apply clean_step in H as (v3 & [] & H3 & E4 & H & E5); [|emits_any..|exact E3].
  apply clean_step in H as (v4 & items & H4 & E6 & H & E7); [|emits_any..|exact E5].
  apply clean_step in H as (v5 & found & H5 & E8 & H & E9); [|emits_any..|exact E7].
  injection H4 as _ H4. injection H5 as _ H5.
  destruct found; cbn [negb] in H;
    [|destruct (add_error_not_clean _ _ _ _ H E9)].
  destruct (has_fleet_importer_found items H5) as (sd & Hin & Hp).
  exists pl, items, sd. repeat split; assumption.
Qed.

Lemma name_clean (p : pystr) (x : pyval) (v v1 : validator) :
  validate_name p x v = (v1, Ok tt) -> errors v1 = errors v ->
  exists inp, x = PDict inp
    /\ exists name, dict_get inp (str "NAME") = Some name /\ name <> PNone.
Proof.
  unfold validate_name, get. intros H E.
  destruct x as [| | | | |inp]; try discriminate. exists inp.
  split; [reflexivity|].
  rewrite (bind_run_ok (lift (Ok _)) _ v _ eq_refl) in H. cbn [lift fst] in H.
  destruct (dict_get inp (str "NAME")) as [name|];
    [|destruct (add_error_not_clean _ _ _ _ H E)].
  exists name. split; [reflexivity|]. intros ->.
  destruct (add_error_not_clean _ _ _ _ H E).
Qed.

Lemma flag_clean (p var : pystr) (wanted : bool) (inp : list (pyval * pyval))
    (v v1 : validator) :
  validate_flag p var wanted (PDict inp) v = (v1, Ok tt) ->
  errors v1 = errors v ->
  dict_get inp var = Some (PBool wanted).
Proof.
  unfold validate_flag, get. intros H E.
  rewrite (bind_run_ok (lift (Ok _)) _ v _ eq_refl) in H. cbn [lift fst] in H.
  destruct (dict_get inp var) as [[|b| | | |]|];
    try (destruct (add_error_not_clean _ _ _ _ H E)).
  destruct (Bool.eqb b wanted) eqn:Eb;
    [|destruct (add_error_not_clean _ _ _ _ H E)].
  apply Bool.eqb_prop in Eb. now subst.
Qed.

Lemma literal_clean (p var expected : pystr) (inp : list (pyval * pyval))
    (v v1 : validator) :
  validate_literal p var expected (PDict inp) v = (v1, Ok tt) ->
  errors v1 = errors v ->
  dict_get inp var = Some (PStr expected).
Proof.
  unfold validate_literal, get. intros H E.
  rewrite (bind_run_ok (lift (Ok _)) _ v _ eq_refl) in H. cbn [lift fst] in H.
  destruct (dict_get inp var) as [x|];
    [|destruct (add_error_not_clean _ _ _ _ H E)].
  destruct (is_str expected x) eqn:Es.
  - now rewrite (is_str_eq _ _ Es).
  - destruct x; cbn [negb] in H;
      destruct (add_error_not_clean _ _ _ _ H E).
Qed.

(** X17.  A validation of a mapping that returns without a new error
    speaks for the recipe: its file has one of the two suffixes and a
    folder, its four sections are there, its identifier has the prefix
    and the token of its mode, one of its stages has the processor, and
    its [Input] has the name, the two switches and, in gitops mode, the
    two paths, each with the value of the guide. *)
Theorem clean_validation_compliant (p : pystr) (d : list (pyval * pyval))
    (v v' : validator) :
  validate_recipe p (Loaded (PDict d)) v = (v', Ok tt) ->
  errors v' = errors v ->
  compliant p d.
Proof.
  intros H E. unfold validate_recipe in H. cbv zeta in H.
  apply clean_step in H as (v1 & [] & H1 & E1 & H & Ea); [|emits_any..|exact E].
  apply clean_step in H as (v2 & [] & H2 & E2 & H & Eb); [|emits_any..|exact Ea].
  apply clean_step in H as (v3 & [] & H3 & E3 & H & Ec); [|emits_any..|exact Eb].
  apply clean_step in H as (v4 & [] & H4 & E4 & H & Ed); [|emits_any..|exact Ec].
  apply clean_step in H as (v5 & [] & H5 & E5 & H & Ee); [|emits_any..|exact Ed].
  apply clean_step in H as (v6 & [] & H6 & E6 & H & Ef); [|emits_any..|exact Ee].
  apply clean_step in H as (v7 & [] & H7 & E7 & H & Eg); [|emits_any..|exact Ef].
  pose proof (filename_clean _ _ _ _ H2 E2) as Cf.
  pose proof (vendor_folder_clean _ _ _ _ H3 E3) as Cv.
  pose proof (required_fields_clean _ _ _ _ _ H4 E4) as Cr.
  pose proof (identifier_clean _ _ _ _ _ _ H6 E6) as (ident & Ci1 & Ci2 & Ci3 & Ci4).
  pose proof (single_processor_clean _ _ _ _ H7 E7)
    as (pl & items & sd & Cp1 & _ & Cp2 & Cp3 & Cp4).
  unfold get at 1 in H.
  rewrite (bind_run_ok (lift (Ok _)) _ v7 _ eq_refl) in H. cbn [lift fst] in H.
  destruct (dict_get d (str "Input")) as [x|] eqn:Ex;
    [|destruct (add_error_not_clean _ _ _ _ H Eg)].
  destruct (truthy x); cbn [negb] in H;
    [|destruct (add_error_not_clean _ _ _ _ H Eg)].
  apply clean_step in H as (v8 & [] & H8 & E8 & H & Eh); [|emits_any..|exact Eg].
  destruct (name_clean _ _ _ _ H8 E8) as (inp & -> & Cn).
  apply clean_step in H as (v9 & [] & H9 & E9 & H & Ei); [|emits_any..|exact Eh].
  apply clean_step in H as (v10 & [] & H10 & E10 & H & Ej); [|emits_any..|exact Ei].
  apply clean_step in H as (v11 & [] & H11 & E11 & H & Ek); [|emits_any..|exact Ej].
  pose proof (flag_clean p (str "SELF_SERVICE") true inp v8 v9 H9 E9) as Cs.
  pose proof (flag_clean p (str "AUTOMATIC_INSTALL") false inp v9 v10 H10 E10)
    as Ca.
  repeat split; try assumption.
  - exists ident. repeat split; assumption.
  - exists pl, items, sd. repeat split; assumption.
  - exists inp. split; [exact Ex|]. split; [exact Cn|].
    split; [exact Cs|]. split; [exact Ca|].
    intros Hg. rewrite Hg in H11.
    apply clean_step in H11 as (v12 & [] & H12 & E12 & H13 & El);
      [|emits_any..|exact E11].
    split.
    + exact (literal_clean p (str "FLEET_GITOPS_SOFTWARE_DIR")
               (str "lib/macos/software") inp v10 v12 H12 E12).
    + exact (literal_clean p (str "FLEET_GITOPS_TEAM_YAML_PATH")
               (str "teams/workstations.yml") inp v12 v11 H13 El).
Qed.

Lemma clean_validation_compliant_witness :
  compliant gitops_path
    (match good_recipe with PDict d => d | _ => [] end).
Proof.
  apply (clean_validation_compliant gitops_path _ init
           (fst (validate_recipe gitops_path (Loaded good_recipe) init)));
    reflexivity.
Defined.

Lemma filter_r_nil {A} (f : A -> result bool) (l : list A) :
  filter_r f l = Ok [] -> forall x, In x l -> f x = Ok false.
Proof.
  induction l as [|y l IH]; intros H x Hx; [destruct Hx|].
  cbn [filter_r] in H. destruct (f y) as [b|e] eqn:Ey; [|discriminate].
  cbn [rbind] in H. destruct (filter_r f l) as [r|e]; [|discriminate].
  cbn [rbind] in H. destruct b; [discriminate|]. injection H as ->.
  destruct Hx as [<-|Hx]; [exact Ey|now apply IH].
Qed.

Lemma categories_clean (p : pystr) (inp : list (pyval * pyval))
    (v v1 : validator) :
  validate_categories p (PDict inp) v = (v1, Ok tt) -> errors v1 = errors v ->
  forall cats, dict_get inp (str "CATEGORIES") = Some (PList cats) ->
  supported_all cats.
Proof.
  unfold validate_categories, get. intros H E cats Hc. rewrite Hc in H.
  rewrite (bind_run_ok (lift (Ok _)) _ v _ eq_refl) in H. cbn [lift fst] in H.
  destruct cats as [|c cats]; [constructor|].
  remember (c :: cats) as l eqn:El.
  assert (Ht : truthy (PList l) = true) by (subst l; reflexivity).
  rewrite Ht in H. cbn [negb py_iter] in H. clear Ht El.
  rewrite (bind_run_ok (lift (Ok _)) _ v _ eq_refl) in H. cbn [lift fst] in H.
  apply bind_inv in H as (v2 & invalid & Hf & H). injection Hf as <- Hf.
  destruct invalid; [|destruct (add_error_not_clean _ _ _ _ H E)].
  apply Forall_forall. intros x Hx.
  pose proof (filter_r_nil _ _ Hf x Hx) as Hfx. cbv beta in Hfx.
  destruct (hashable x); [|discriminate]. injection Hfx as Hfx.
  apply negb_false_iff in Hfx.
  repeat match type of Hfx with
         | (_ || _) = true => apply orb_true_iff in Hfx as [Hfx|Hfx]
         end; try discriminate;
    eexists; (split; [apply is_str_eq; exact Hfx|]);
    unfold SUPPORTED_CATEGORIES; cbn [In]; auto 6.
Qed.

Lemma check_argument_clean (p arg expected : pystr) (a : list (pyval * pyval))
    (v v1 : validator) :
  check_argument p (PDict a) arg expected v = (v1, Ok tt) ->
  errors v1 = errors v ->
  dict_get a arg = Some (PStr expected).
Proof.
  unfold check_argument, get. intros H E.
  rewrite (bind_run_ok (lift (Ok _)) _ v _ eq_refl) in H. cbn [lift fst] in H.
  destruct (dict_get a arg) as [x|];
    [|destruct (add_error_not_clean _ _ _ _ H E)].
  destruct (is_str expected x) eqn:Es.
  - now rewrite (is_str_eq _ _ Es).
  - destruct (add_error_not_clean _ _ _ _ H E).
Qed.

Lemma process_arguments_clean (p : pystr) (args : pyval) (v v1 : validator) :
  validate_process_arguments p args (contains (str ".gitops.") p) v = (v1, Ok tt) ->
  errors v1 = errors v ->
  exists a, args = PDict a /\ bound p a.
Proof.
  unfold validate_process_arguments. intros H E.
  apply clean_step in H as (v2 & [] & H2 & E2 & H & Ea); [|emits_any..|exact E].
  apply clean_step in H as (v3 & [] & H3 & E3 & H & Eb); [|emits_any..|exact Ea].
  destruct args as [| | | | |a];
    try (unfold check_argument, get, bind, lift in H2; discriminate).
  exists a. split; [reflexivity|]. split; [|split].
  - exact (check_argument_clean _ _ _ _ _ _ H2 E2).
  - exact (check_argument_clean _ _ _ _ _ _ H3 E3).
  - intros Hg. rewrite Hg in H.
    apply clean_step in H as (v4 & [] & H4 & E4 & H & Ec);
      [|emits_any..|exact Eb].
    split.
    + exact (check_argument_clean _ _ _ _ _ _ H4 E4).
    + exact (check_argument_clean _ _ _ _ _ _ H Ec).
Qed.

(** X18.  A validation of a mapping that returns without a new error
    also speaks for the categories and for the stage: the categories of
    [Input], when it has a list of them, are all among the four of the
    guide, and the first stage is a mapping whose arguments name the
    variables of [Input] by their placeholders. *)
Theorem clean_validation_bindings (p : pystr) (d : list (pyval * pyval))
    (v v' : validator) :
  validate_recipe p (Loaded (PDict d)) v = (v', Ok tt) ->
  errors v' = errors v ->
  exists inp process_list sd a,
    dict_get d (str "Input") = Some (PDict inp)
    /\ (forall cats, dict_get inp (str "CATEGORIES") = Some (PList cats) ->
        supported_all cats)
    /\ dict_get d (str "Process") = Some process_list
    /\ py_first process_list = Ok (PDict sd)
    /\ or_default (dict_get sd (str "Arguments")) (PDict []) = PDict a
    /\ bound p a.
Proof.
  intros H E. unfold validate_recipe in H. cbv zeta in H.
  apply clean_step in H as (v1 & [] & H1 & E1 & H & Ea); [|emits_any..|exact E].
  apply clean_step in H as (v2 & [] & H2 & E2 & H & Eb); [|emits_any..|exact Ea].
  apply clean_step in H as (v3 & [] & H3 & E3 & H & Ec); [|emits_any..|exact Eb].
  apply clean_step in H as (v4 & [] & H4 & E4 & H & Ed); [|emits_any..|exact Ec].
  apply clean_step in H as (v5 & [] & H5 & E5 & H & Ee); [|emits_any..|exact Ed].
  apply clean_step in H as (v6 & [] & H6 & E6 & H & Ef); [|emits_any..|exact Ee].
  apply clean_step in H as (v7 & [] & H7 & E7 & H & Eg); [|emits_any..|exact Ef].
  pose proof (single_processor_clean _ _ _ _ H7 E7)
    as (pl & items & sd0 & Cp1 & Cp2 & _).
  unfold get at 1 in H.
  rewrite (bind_run_ok (lift (Ok _)) _ v7 _ eq_refl) in H. cbn [lift fst] in H.
  destruct (dict_get d (str "Input")) as [x|] eqn:Ex;
    [|destruct (add_error_not_clean _ _ _ _ H Eg)].
  destruct (truthy x); cbn [negb] in H;
    [|destruct (add_error_not_clean _ _ _ _ H Eg)].
  apply clean_step in H as (v8 & [] & H8 & E8 & H & Eh); [|emits_any..|exact Eg].
  destruct (name_clean _ _ _ _ H8 E8) as (inp & -> & _).
  apply clean_step in H as (v9 & [] & H9 & E9 & H & Ei); [|emits_any..|exact Eh].
  apply clean_step in H as (v10 & [] & H10 & E10 & H & Ej); [|emits_any..|exact Ei].
  apply clean_step in H as (v11 & [] & H11 & E11 & H & Ek); [|emits_any..|exact Ej].
  apply clean_step in H as (v12 & [] & H12 & E12 & H & El); [|emits_any..|exact Ek].
  unfold get at 1 in H. rewrite Cp1 in H.
  rewrite (bind_run_ok (lift (Ok _)) _ v12 _ eq_refl) in H. cbn [lift fst] in H.
  rewrite Cp2 in H.
  apply bind_inv in H as (v13 & n & Hn & H). injection Hn as <- Hn.
  assert (Hpos : (0 <? n) = true).
  { destruct pl as [| | |[|c s0]|[|y l]|[|kv l]]; try discriminate;
      injection Hn as <-; reflexivity. }
  rewrite Hpos in H.
  apply bind_inv in H as (v14 & first & Hf & H). injection Hf as <- Hf.
  apply bind_inv in H as (v15 & args & Ha & H). injection Ha as <- Ha.
  destruct (process_arguments_clean p args v12 v' H El) as (a & -> & Hb).
  destruct first as [| | | | |sd]; try discriminate.
  exists inp, pl, sd, a. split; [first [exact Ex|reflexivity]|].
  split; [exact (categories_clean p inp v11 v12 H12 E12)|].
  split; [exact Cp1|]. split; [exact Hf|]. split; [|exact Hb].
  unfold get in Ha. now injection Ha.
Qed.

Lemma clean_validation_bindings_witness :
  exists inp process_list sd a,
    dict_get (match good_recipe with PDict d => d | _ => [] end) (str "Input")
      = Some (PDict inp)
    /\ (forall cats, dict_get inp (str "CATEGORIES") = Some (PList cats) ->
        supported_all cats)
    /\ dict_get (match good_recipe with PDict d => d | _ => [] end) (str "Process")
       = Some process_list
    /\ py_first process_list = Ok (PDict sd)
    /\ or_default (dict_get sd (str "Arguments")) (PDict []) = PDict a
    /\ bound gitops_path a.
Proof.
  apply (clean_validation_bindings gitops_path _ init
           (fst (validate_recipe gitops_path (Loaded good_recipe) init)));
    reflexivity.
Defined.

(** *** The order of the files *)

Lemma str_ltb_irrefl (a : pystr) : str_ltb a a = false.
Proof.
  induction a as [|x a IH]; [reflexivity|].
  cbn [str_ltb]. now rewrite N.ltb_irrefl, N.eqb_refl.
Qed.

Lemma str_ltb_trans (a b c : pystr) :
  str_ltb a b = true -> str_ltb b c = true -> str_ltb a c = true.
Proof.
  revert b c. induction a as [|x a IH]; intros [|y b] [|z c];
    cbn [str_ltb]; try discriminate; try reflexivity.
  destruct (N.ltb_spec x y) as [Hxy|Hxy].
  - intros _. destruct (N.ltb_spec y z) as [Hyz|Hyz].
    + intros _. destruct (N.ltb_spec x z); [reflexivity|lia].
    + destruct (N.eqb_spec y z) as [->|]; [|discriminate].
      intros _. destruct (N.ltb_spec x z); [reflexivity|lia].
  - destruct (N.eqb_spec x y) as [->|]; [|discriminate].
    intros Hab. destruct (N.ltb_spec y z) as [Hyz|Hyz]; [reflexivity|].
    destruct (N.eqb_spec y z) as [->|]; [|discriminate].
    apply IH, Hab.
Qed.

Lemma str_ltb_total (a b : pystr) :
  str_ltb a b = false -> str_ltb b a = false -> a = b.
Proof.
  revert b. induction a as [|x a IH]; intros [|y b]; cbn [str_ltb];
    try discriminate; [reflexivity|].
  destruct (N.ltb_spec x y) as [Hxy|Hxy]; [discriminate|].
  destruct (N.eqb_spec x y) as [->|Hne].
  - rewrite N.ltb_irrefl, N.eqb_refl. intros Hab Hba.
    now rewrite (IH b Hab Hba).
  - intros _. destruct (N.ltb_spec y x) as [Hyx|Hyx]; [discriminate|lia].
Qed.

Lemma path_le_refl (f : pystr * loaded) : path_le f f.
Proof. apply str_ltb_irrefl. Qed.

Lemma insert_sorted_perm (f : pystr * loaded) (l : list (pystr * loaded)) :
  Permutation (insert_sorted f l) (f :: l).
Proof.
  induction l as [|g l IH]; [apply Permutation_refl|].
  cbn [insert_sorted]. destruct (str_ltb (fst f) (fst g)).
  - apply Permutation_refl.
  - eapply Permutation_trans; [apply perm_skip, IH|apply perm_swap].
Qed.

Lemma sorted_perm (l : list (pystr * loaded)) : Permutation (sorted l) l.
Proof.
  induction l as [|f l IH]; [apply perm_nil|].
  cbn [sorted fold_right]. fold (sorted l).
  eapply Permutation_trans; [apply insert_sorted_perm|apply perm_skip, IH].
Qed.

Lemma insert_sorted_ordered (f : pystr * loaded) (l : list (pystr * loaded)) :
  StronglySorted path_le l -> StronglySorted path_le (insert_sorted f l).
Proof.
  induction 1 as [|g l Hl IH Hg].
  - cbn. constructor; constructor.
  - cbn [insert_sorted]. destruct (str_ltb (fst f) (fst g)) eqn:Efg.
    + constructor; [now constructor|]. constructor.
      * unfold path_le. destruct (str_ltb (fst g) (fst f)) eqn:Egf; [|reflexivity].
        rewrite <- (str_ltb_irrefl (fst f)). symmetry.
        exact (str_ltb_trans _ _ _ Efg Egf).
      * rewrite Forall_forall in *. intros x Hx. specialize (Hg x Hx).
        unfold path_le in *.
        destruct (str_ltb (fst x) (fst f)) eqn:Exf; [|reflexivity].
        rewrite <- Hg. symmetry. exact (str_ltb_trans _ _ _ Exf Efg).
    + constructor; [exact IH|].
      rewrite Forall_forall in *. intros x Hx.
      apply insert_sorted_in in Hx. destruct Hx as [->|Hx]; [exact Efg|].
      apply Hg, Hx.
Qed.

Lemma sorted_ordered (l : list (pystr * loaded)) :
  StronglySorted path_le (sorted l).
Proof.
  induction l as [|f l IH]; [constructor|].
  cbn [sorted fold_right]. fold (sorted l). now apply insert_sorted_ordered.
Qed.

Lemma same_path_same_file (l : list (pystr * loaded)) (f g : pystr * loaded) :
  NoDup (map fst l) -> In f l -> In g l -> fst f = fst g -> f = g.
Proof.
  induction l as [|h l IH]; [intros _ []|].
  cbn [map In]. intros Hnd Hf Hg E. inversion Hnd as [|? ? Hh Hl]; subst.
  destruct Hf as [->|Hf], Hg as [->|Hg].
  - reflexivity.
  - exfalso. apply Hh. rewrite E. now apply in_map.
  - exfalso. apply Hh. rewrite <- E. now apply in_map.
  - now apply IH.
Qed.

Lemma ordered_unique (l l' : list (pystr * loaded)) :
  Permutation l l' -> NoDup (map fst l) ->
  StronglySorted path_le l -> StronglySorted path_le l' -> l = l'.
Proof.
  revert l'. induction l as [|h t IH]; intros l' Hp Hnd Hs Hs'.
  - now apply Permutation_nil in Hp.
  - destruct l' as [|h' t'].
    + apply Permutation_sym, Permutation_nil in Hp. discriminate.
    + inversion Hs as [|? ? Ht Hh]; subst.
      inversion Hs' as [|? ? Ht' Hh']; subst.
      rewrite Forall_forall in Hh, Hh'.
      assert (Hin : In h (h' :: t'))
        by (eapply Permutation_in; [exact Hp|now left]).
      assert (Hin' : In h' (h :: t))
        by (eapply Permutation_in; [apply Permutation_sym, Hp|now left]).
      assert (L1 : path_le h' h)
        by (destruct Hin as [<-|Hin]; [apply path_le_refl|now apply Hh']).
      assert (L2 : path_le h h')
        by (destruct Hin' as [<-|Hin']; [apply path_le_refl|now apply Hh]).
      assert (E : h = h').
      { apply (same_path_same_file (h :: t)); [exact Hnd|now left|exact Hin'|].
        apply str_ltb_total; [exact L1|exact L2]. }
      subst h'. f_equal. apply IH.
      * eapply Permutation_cons_inv, Hp.
      * now inversion Hnd.
      * exact Ht.
      * exact Ht'.
Qed.

Lemma kept_perm (l l' : list (pystr * loaded)) :
  Permutation l l' -> Permutation (kept l) (kept l').
Proof.
  unfold kept. induction 1 as [|x l l' _ IH|x y l|l l' l'' _ IH1 _ IH2];
    cbn [filter].
  - apply perm_nil.
  - destruct (negb _); [apply perm_skip|]; exact IH.
  - destruct (negb (contains _ (fst x))), (negb (contains _ (fst y)));
      try apply Permutation_refl. apply perm_swap.
  - eapply Permutation_trans; eassumption.
Qed.

Lemma kept_nodup (l : list (pystr * loaded)) :
  NoDup (map fst l) -> NoDup (map fst (kept l)).
Proof.
  unfold kept. induction l as [|f l IH]; [intros; constructor|].
  cbn [map filter]. intros Hnd. inversion Hnd as [|? ? Hf Hl]; subst.
  destruct (negb _); [|now apply IH].
  cbn [map]. constructor; [|now apply IH].
  intros Hin. apply Hf. apply in_map_iff in Hin.
  destruct Hin as (g & E & Hg). apply filter_In in Hg.
  apply in_map_iff. exists g. tauto.
Qed.

Lemma sorted_order_free (l l' : list (pystr * loaded)) :
  Permutation l l' -> NoDup (map fst l) -> sorted l = sorted l'.
Proof.
  intros Hp Hnd. apply ordered_unique.
  - eapply Permutation_trans; [apply sorted_perm|].
    eapply Permutation_trans; [exact Hp|apply Permutation_sym, sorted_perm].
  - eapply Permutation_NoDup; [|exact Hnd].
    apply Permutation_map, Permutation_sym, sorted_perm.
  - apply sorted_ordered.
  - apply sorted_ordered.
Qed.

(** X19.  The report does not depend on the order in which the search
    lists the files: when no path is listed twice, two listings of the
    same files leave the same entries and counts in the validator and
    give the same report and exit code, since the files are validated
    in the order of their paths.  Within a run the entries of a file
    with a lower path come first: the order validated is that of the
    paths. *)
Theorem validate_all_recipes_order_free
    (found found' : list (pystr * loaded)) (v : validator) :
  Permutation found found' -> NoDup (map fst found) ->
  validate_all_recipes found v = validate_all_recipes found' v
  /\ StronglySorted path_le (sorted (kept found))
  /\ Permutation (sorted (kept found)) (kept found).
Proof.
  intros Hp Hnd. split; [|split].
  - unfold validate_all_recipes. fold (kept found) (kept found').
    rewrite (sorted_order_free (kept found) (kept found'));
      [reflexivity|now apply kept_perm|now apply kept_nodup].
  - apply sorted_ordered.
  - apply sorted_perm.
Qed.

Lemma validate_all_recipes_order_free_witness :
  validate_all_recipes
    [(str "Vendor/B.recipe.yaml", YamlError (str "tab"));
     (str "Vendor/A.recipe.yaml", Loaded good_recipe)] init
  = validate_all_recipes
      [(str "Vendor/A.recipe.yaml", Loaded good_recipe);
       (str "Vendor/B.recipe.yaml", YamlError (str "tab"))] init.
Proof.
  apply (validate_all_recipes_order_free
           [(str "Vendor/B.recipe.yaml", YamlError (str "tab"));
            (str "Vendor/A.recipe.yaml", Loaded good_recipe)]
           [(str "Vendor/A.recipe.yaml", Loaded good_recipe);
            (str "Vendor/B.recipe.yaml", YamlError (str "tab"))] init).
  - apply perm_swap.
  - constructor; [|constructor; [intros []|constructor]].
    cbn [map fst In]. intros [E|[]]. discriminate E.
Defined.

End ComplianceMore.

(** * Properties of the migration script *)
Module UpdateRecipesFacts.
Import PyStr PyStrFacts PolicyArtifact PolicyArtifactFacts ComplianceFacts UpdateRecipes.
Local Open Scope nat_scope.

Lemma contains_split (sub s : pystr) :
  contains sub s = true -> exists pre post, s = pre ++ sub ++ post.
Proof.
  induction s as [|c r IH]; intros H.
  - cbn in H. rewrite orb_false_r in H.
    apply startswith_exact in H as [post H]. now exists [], post.
  - rewrite contains_cons in H. apply orb_true_iff in H as [H|H].
    + apply startswith_exact in H as [post H]. now exists [], post.
    + destruct (IH H) as (pre & post & ->). now exists (c :: pre), post.
Qed.

Lemma contains_inside (x a new b : pystr) :
  contains x new = true -> contains x (a ++ new ++ b) = true.
Proof.
  intros H. apply contains_split in H as (pre & post & ->).
  apply (contains_at x (a ++ pre) (post ++ b)).
  now rewrite <- !app_assoc.
Qed.

(** Where [old] occurs, the result has [new]. *)
Lemma replace_occurs (old new s : pystr) :
  old <> [] -> contains old s = true ->
  exists a b, replace old new s = a ++ new ++ b.
Proof.
  intros Hold. induction s as [|c r IH]; intros H.
  - destruct old; [congruence|discriminate].
  - rewrite contains_cons in H.
    destruct (startswith old (c :: r)) eqn:E.
    + rewrite replace_hit by assumption. now exists [], (replace old new
        (skipn (length old) (c :: r))).
    + cbn [orb] in H. destruct (IH H) as (a & b & Hr).
      rewrite replace_miss by assumption. rewrite Hr. now exists (c :: a), b.
Qed.

Lemma sub_before_marker (matched insert content : pystr) :
  matched <> [] ->
  contains MARKER insert = true ->
  contains matched content = true ->
  contains MARKER (sub_before matched insert content) = true.
Proof.
  intros Hm Hi Hc. unfold sub_before.
  destruct (replace_occurs matched (insert ++ matched) content Hm Hc)
    as (a & b & ->).
  apply contains_inside.
  destruct (contains_split _ _ Hi) as (pre & post & ->).
  apply (contains_at MARKER pre (post ++ matched)). now rewrite <- !app_assoc.
Qed.

Lemma sub_before_absent (matched insert content : pystr) :
  matched <> [] -> contains matched content = false ->
  sub_before matched insert content = content.
Proof. intros Hm H. now apply replace_absent. Qed.

(** X6.  A file that has the marker is left as it is and reported as
    skipped.  A file without the marker in which one of the two patterns
    occurs has the marker afterwards, so that a second run skips it. *)
Theorem update_recipe_once (content : pystr) :
  (contains MARKER content = true -> update_recipe content = (content, false))
  /\ (contains MARKER content = false ->
      contains INPUT_MATCH content || contains ARGS_MATCH content = true ->
      snd (update_recipe content) = true
      /\ contains MARKER (fst (update_recipe content)) = true
      /\ update_recipe (fst (update_recipe content))
         = (fst (update_recipe content), false)).
Proof.
  split.
  - intros H. unfold update_recipe. now rewrite H.
  - intros Hm Hp.
    assert (Hc : contains MARKER (fst (update_recipe content)) = true).
    { unfold update_recipe. rewrite Hm. cbn [fst].
      destruct (contains ARGS_MATCH (sub_before INPUT_MATCH INPUT_INSERT content))
        eqn:Ea.
      - apply sub_before_marker; [discriminate|reflexivity|assumption].
      - rewrite (sub_before_absent ARGS_MATCH) by (discriminate || assumption).
        destruct (contains INPUT_MATCH content) eqn:Ei.
        + apply sub_before_marker; [discriminate|reflexivity|assumption].
        + rewrite (sub_before_absent INPUT_MATCH) in Ea
            by (discriminate || assumption).
          cbn [orb] in Hp. congruence. }
    split; [unfold update_recipe; now rewrite Hm|]. split; [exact Hc|].
    unfold update_recipe at 1. now rewrite Hc.
Qed.

Lemma update_recipe_once_witness :
  let content := str "Input:" ++ nl ++ INPUT_MATCH ++ nl in
  contains MARKER content = false
  /\ update_recipe (fst (update_recipe content))
     = (fst (update_recipe content), false).
Proof.
  cbv zeta. split; [reflexivity|].
  apply (update_recipe_once (str "Input:" ++ nl ++ INPUT_MATCH ++ nl));
    reflexivity.
Defined.










Lemma update_files_counts (files : list pystr) (u k : nat) :
  let '(files', u', k') := update_files files u k in
  files' = map (fun c => fst (update_recipe c)) files
  /\ u' = u + length (filter (fun c => negb (contains MARKER c)) files)
  /\ k' = k + length (filter (contains MARKER) files).
Proof.
  revert u k; induction files as [|c files IH]; intros u k.
  - cbn. split; [reflexivity|]. split; lia.
  - cbn [update_files map filter].
    assert (Hs : snd (update_recipe c) = negb (contains MARKER c))
      by (unfold update_recipe; now destruct (contains MARKER c)).
    destruct (update_recipe c) as [c' updated]. cbn [fst snd] in *. subst updated.
    destruct (contains MARKER c); cbn [negb].
    + specialize (IH u (S k)).
      destruct (update_files files u (S k)) as [[files' u'] k'].
      destruct IH as (-> & -> & ->). cbn [length].
      split; [reflexivity|]. split; lia.
    + specialize (IH (S u) k).
      destruct (update_files files (S u) k) as [[files' u'] k'].
      destruct IH as (-> & -> & ->). cbn [length].
      split; [reflexivity|]. split; lia.
Qed.

Lemma update_dirs_counts (dirs : list (option (list pystr))) (u k : nat) :
  let '(dirs', u', k') := update_dirs dirs u k in
  dirs' = map (option_map (map (fun c => fst (update_recipe c)))) dirs
  /\ u' = u + length (filter (fun c => negb (contains MARKER c)) (all_files dirs))
  /\ k' = k + length (filter (contains MARKER) (all_files dirs)).
Proof.
  revert u k; induction dirs as [|[files|] dirs IH]; intros u k.
  - cbn. split; [reflexivity|]. split; lia.
  - cbn [update_dirs]. pose proof (update_files_counts files u k) as Hf.
    destruct (update_files files u k) as [[files' u1] k1].
    destruct Hf as (-> & -> & ->).
    match goal with |- context [update_dirs dirs ?a ?b] =>
      specialize (IH a b); destruct (update_dirs dirs a b) as [[dirs' u2] k2]
    end.
    destruct IH as (-> & -> & ->).
    unfold all_files. cbn [map concat option_map].
    rewrite !filter_app, !length_app.
    split; [reflexivity|]. split; lia.
  - cbn [update_dirs]. specialize (IH u k).
    destruct (update_dirs dirs u k) as [[dirs' u2] k2].
    destruct IH as (-> & -> & ->).
    split; [reflexivity|]. split; reflexivity.
Qed.

(** X9.  The two counts that [main] prints: the files that have the
    marker are the skipped ones, all the others are counted as updated,
    and the two counts add up to the number of files found; each file is
    left as [update_recipe] leaves it, and a directory that is not there
    stays so. *)
Theorem main_counts (fs : pystr -> option (list pystr)) :
  let files := all_files (map fs RECIPE_DIRS) in
  let '(dirs', updated_count, skipped_count) := main fs in
  dirs' = map (fun d => option_map (map (fun c => fst (update_recipe c))) (fs d))
              RECIPE_DIRS
  /\ skipped_count = length (filter (contains MARKER) files)
  /\ updated_count = length (filter (fun c => negb (contains MARKER c)) files)
  /\ updated_count + skipped_count = length files.
Proof.
  cbv zeta. unfold main.
  pose proof (update_dirs_counts (map fs RECIPE_DIRS) 0 0) as H.
  destruct (update_dirs (map fs RECIPE_DIRS) 0 0) as [[dirs' u] k].
  destruct H as (-> & -> & ->).
  split; [now rewrite map_map|]. split; [reflexivity|]. split; [reflexivity|].
  cbn [Nat.add].
  generalize (all_files (map fs RECIPE_DIRS)). intros l.
  induction l as [|c l IH]; [reflexivity|].
  cbn [filter length]. destruct (contains MARKER c); cbn [negb length]; lia.
Qed.

End UpdateRecipesFacts.
